(** * thesis-function-app: the flights pipeline, embedded and verified

    A shallow embedding of [key_vault.py] and [function_app.py].

    - Python text is a [string]: the bytes of its UTF-8 encoding, so that
      [str.encode("utf-8")] is the identity on the model.
    - [os.environ] is a finite map from names to values.
    - The Azure SDK, httpx and the clock are outside the repository; they
      are a [World] of oracles, one outcome per call the code can make.
    - Python exceptions are an explicit [result]; the three [except]
      clauses of the source select on the class of the exception.
    - The two [functools.cache] decorators are the two cache fields of the
      process [State]; every call to the outside is written to a trace of
      [event]s. [logging] calls have no effect the claims can see and are
      left out. *)

From Stdlib Require Import ZArith Lia Ascii.
From stdpp Require Import base option list gmap strings.

Local Open Scope Z_scope.

(** ** Exceptions *)

(** The subclasses of [Exception] the handlers tell apart. [KeyError] is
    what [os.environ[k]] raises; [HTTPError] stands for [httpx.HTTPError]
    and its subclasses (transport errors, [HTTPStatusError]); [OtherError]
    is any other subclass of [Exception], such as the Azure SDK errors or
    [httpx.InvalidURL], which httpx does not derive from [HTTPError]. *)
Inductive exn : Type :=
| KeyError (key : string)
| HTTPError (msg : string)
| OtherError (msg : string).

(** [str(e)]. For [KeyError] Python prints the [repr] of the key; the keys
    of this program are plain identifiers, whose [repr] is the key between
    single quotes. *)
Definition str (e : exn) : string :=
  match e with
  | KeyError key => "'" +:+ key +:+ "'"
  | HTTPError msg => msg
  | OtherError msg => msg
  end.

(** [except KeyError], [except httpx.HTTPError], [except Exception]. *)
Definition is_KeyError (e : exn) : bool :=
  match e with KeyError _ => true | _ => false end.
Definition is_HTTPError (e : exn) : bool :=
  match e with HTTPError _ => true | _ => false end.
Definition is_Exception (e : exn) : bool := true.

Inductive result (A : Type) : Type :=
| Ok (a : A)
| Raise (e : exn).
Arguments Ok {A} a.
Arguments Raise {A} e.

(** ** Objects of the libraries *)

(** A credential is known by its identity: two constructions give two
    different objects. *)
Record Credential := { cred_id : nat }.

Record SecretClient :=
  { vault_url : string; sc_credential : Credential }.

Record BlobServiceClient :=
  { account_url : string; bsc_credential : Credential }.

Record ContainerClient :=
  { cc_service : BlobServiceClient; cc_container : string }.

Record BlobClient :=
  { bc_container : ContainerClient; bc_blob : string }.

(** An [httpx.Client], known by the timeout it was built with. *)
Record HttpClient := { timeout : Z }.

(** An [httpx.Response], as far as the handler reads it. *)
Record Response := { http_status : Z; text : string }.

(** [Response.is_success]: a 2xx status. *)
Definition is_success (r : Response) : bool :=
  (200 <=? http_status r) && (http_status r <=? 299).

(** [azure.functions.HttpRequest] and [HttpResponse]. *)
Record HttpRequest := { method : string; url : string; req_body : string }.
Record HttpResponse := { body : string; status_code : Z }.

(** [datetime.now(timezone.utc)]. *)
Record datetime :=
  { year : nat; month : nat; day : nat;
    hour : nat; minute : nat; second : nat }.

(** ** The world outside the repository *)

Record World := {
  environ : gmap string string;
  (** [None]: the constructor returns; [Some e]: it raises [e]. *)
  DefaultAzureCredential_init : option exn;
  SecretClient_init : string → Credential → option exn;
  (** [client.get_secret(name).value]; the value itself may be [None]. *)
  SecretClient_get_secret : SecretClient → string → result (option string);
  (** [httpx.Client(timeout=30.0)]. The constructor sends nothing; it reads
      the proxy and certificate variables of the process and raises on a
      malformed one, a [ValueError] for a proxy URL of unknown scheme.
      httpx raises [HTTPError] for requests only, so what the constructor
      raises is outside that family: [None] when it returns, [Some msg]
      when it raises an error of text [msg]. *)
  Client_init : option string;
  (** [client.get(url)] on a client that was built. *)
  Client_get_outcome : string → result Response;
  BlobServiceClient_init : string → Credential → option exn;
  get_container_client_outcome : BlobServiceClient → string → option exn;
  get_blob_client_outcome : ContainerClient → string → option exn;
  upload_blob_outcome : BlobClient → string → option exn;
  utc_now : datetime
}.

(** The outcome of line 31 followed by line 32 for the URL [target]: the
    client is built and [client.get(target)] is called on it. When the
    constructor raises, that error is the outcome and no request is made. *)
Definition Client_get (w : World) (target : string) : result Response :=
  match Client_init w with
  | Some msg => Raise (OtherError msg)
  | None => Client_get_outcome w target
  end.

(** ** Process state and trace *)

Record State := {
  credential_cache : option Credential;      (* cache of [get_credential] *)
  secret_client_cache : option SecretClient; (* cache of [get_secret_client] *)
  next_id : nat                              (* identity of the next object *)
}.

Definition initial_state : State :=
  {| credential_cache := None; secret_client_cache := None; next_id := 0 |}.

(** Every call that leaves the repository, in the order it is made. An
    event is written when the call is made, whatever its outcome. Building
    and closing the [httpx.Client] open no connection and are not written;
    only the failure of its constructor is modelled. *)
Inductive event : Type :=
| NewCredential
| NewSecretClient (vault : string)
| SecretLookup (vault name : string)
| HttpGet (target : string)
| NewBlobServiceClient (account : string)
| ContainerHandle (container : string)
| BlobHandle (container blob : string)
| UploadBlob (container blob data : string).

(** The calls that go over the network. *)
Definition is_outbound (ev : event) : bool :=
  match ev with
  | SecretLookup _ _ | HttpGet _ | UploadBlob _ _ _ => true
  | _ => false
  end.

(** The calls of the storage stage. *)
Definition is_storage (ev : event) : bool :=
  match ev with
  | NewBlobServiceClient _ | ContainerHandle _ | BlobHandle _ _
  | UploadBlob _ _ _ => true
  | _ => false
  end.

Definition is_http_get (ev : event) : bool :=
  match ev with HttpGet _ => true | _ => false end.

Definition is_new_credential (ev : event) : bool :=
  match ev with NewCredential => true | _ => false end.

Definition is_upload (ev : event) : bool :=
  match ev with UploadBlob _ _ _ => true | _ => false end.

Definition is_secret_lookup (ev : event) : bool :=
  match ev with SecretLookup _ _ => true | _ => false end.

Definition is_new_secret_client (ev : event) : bool :=
  match ev with NewSecretClient _ => true | _ => false end.

Definition is_new_blob_service_client (ev : event) : bool :=
  match ev with NewBlobServiceClient _ => true | _ => false end.

(** ** The monad of the embedding *)

(** A computation reads the world, threads the process state, may raise,
    and emits the events of the calls it made. *)
Definition M (A : Type) : Type := World → State → result A * State * list event.

Definition ret {A} (a : A) : M A := λ _ s, (Ok a, s, []).

Definition raise {A} (e : exn) : M A := λ _ s, (Raise e, s, []).

Definition bind {A B} (m : M A) (k : A → M B) : M B :=
  λ w s,
    match m w s with
    | (Ok a, s1, evs1) =>
        match k a w s1 with
        | (r, s2, evs2) => (r, s2, evs1 ++ evs2)
        end
    | (Raise e, s1, evs1) => (Raise e, s1, evs1)
    end.

Notation "x <- m ;; k" := (bind m (λ x, k))
  (at level 100, m at next level, right associativity).
Notation "m ;;; k" := (bind m (λ _, k))
  (at level 100, right associativity).

(** [try: body except C as e: handler e], where [catches] decides whether
    the raised exception is an instance of [C]. *)
Definition try_except {A} (body : M A) (catches : exn → bool)
    (handler : exn → M A) : M A :=
  λ w s,
    match body w s with
    | (Ok a, s1, evs1) => (Ok a, s1, evs1)
    | (Raise e, s1, evs1) =>
        if catches e then
          match handler e w s1 with
          | (r, s2, evs2) => (r, s2, evs1 ++ evs2)
          end
        else (Raise e, s1, evs1)
    end.

Definition ask : M World := λ w s, (Ok w, s, []).
Definition get_state : M State := λ _ s, (Ok s, s, []).
Definition put_state (s : State) : M unit := λ _ _, (Ok tt, s, []).
Definition emit (ev : event) : M unit := λ _ s, (Ok tt, s, [ev]).

(** A call to a library function that returns nothing the model keeps. *)
Definition call (ev : event) (outcome : World → option exn) : M unit :=
  emit ev ;;;
  w <- ask ;;
  match outcome w with
  | Some e => raise e
  | None => ret tt
  end.

(** A call to a library function with a result. *)
Definition call_result {A} (ev : event) (outcome : World → result A) : M A :=
  emit ev ;;;
  w <- ask ;;
  match outcome w with
  | Raise e => raise e
  | Ok a => ret a
  end.

(** [os.environ[key]] and [os.getenv(key, default)]. *)
Definition environ_getitem (key : string) : M string :=
  w <- ask ;;
  match environ w !! key with
  | Some v => ret v
  | None => raise (KeyError key)
  end.

Definition getenv (key fallback : string) : M string :=
  w <- ask ;;
  ret (default fallback (environ w !! key)).

(** ** key_vault.py *)

Module key_vault.

(** [@functools.cache] on a function without arguments: the first call that
    returns stores its value; a call that raises stores nothing. *)
Definition functools_cache {A} (cached : State → option A)
    (store : A → State → State) (f : M A) : M A :=
  s <- get_state ;;
  match cached s with
  | Some a => ret a
  | None =>
      a <- f ;;
      s' <- get_state ;;
      put_state (store a s') ;;;
      ret a
  end.

Definition store_credential (c : Credential) (s : State) : State :=
  {| credential_cache := Some c;
     secret_client_cache := secret_client_cache s;
     next_id := next_id s |}.

Definition store_secret_client (c : SecretClient) (s : State) : State :=
  {| credential_cache := credential_cache s;
     secret_client_cache := Some c;
     next_id := next_id s |}.

(** A constructor that returned: the new object gets the next identity. *)
Definition fresh_id : M nat :=
  s <- get_state ;;
  put_state {| credential_cache := credential_cache s;
               secret_client_cache := secret_client_cache s;
               next_id := S (next_id s) |} ;;;
  ret (next_id s).

(** [DefaultAzureCredential(exclude_interactive_browser_credential=False)] *)
Definition DefaultAzureCredential : M Credential :=
  call NewCredential DefaultAzureCredential_init ;;;
  i <- fresh_id ;;
  ret {| cred_id := i |}.

Definition get_credential : M Credential :=
  functools_cache credential_cache store_credential DefaultAzureCredential.

Definition get_secret_client : M SecretClient :=
  functools_cache secret_client_cache store_secret_client
    (key_vault_url <- environ_getitem "KEY_VAULT_URL" ;;
     credential <- get_credential ;;
     call (NewSecretClient key_vault_url)
          (λ w, SecretClient_init w key_vault_url credential) ;;;
     ret {| vault_url := key_vault_url; sc_credential := credential |}).

Definition get_secret (secret_name : string) : M (option string) :=
  try_except
    (secret_client <- get_secret_client ;;
     value <- call_result (SecretLookup (vault_url secret_client) secret_name)
                (λ w, SecretClient_get_secret w secret_client secret_name) ;;
     ret value)
    is_Exception
    (λ e, ret None).

Definition get_blob_service_client : M BlobServiceClient :=
  storage_account_name <- environ_getitem "STORAGE_ACCOUNT_NAME" ;;
  let storage_account_url :=
    "https://" +:+ storage_account_name +:+ ".blob.core.windows.net" in
  credential <- get_credential ;;
  call (NewBlobServiceClient storage_account_url)
       (λ w, BlobServiceClient_init w storage_account_url credential) ;;;
  ret {| account_url := storage_account_url; bsc_credential := credential |}.

End key_vault.

(** ** function_app.py *)

Module function_app.
Import key_vault.

(** *** Library functions the handler uses *)

(** [s.rstrip(c)] for a one-character [c]: drop every trailing [c]. *)
Fixpoint rstrip (c : ascii) (s : string) : string :=
  match s with
  | EmptyString => EmptyString
  | String a s' =>
      match rstrip c s' with
      | EmptyString => if Ascii.eqb a c then EmptyString else String a EmptyString
      | r => String a r
      end
  end.

Definition digit (n : nat) : ascii := Ascii.ascii_of_nat (48 + n mod 10)%nat.

(** The last [width] decimal digits of [n], zero-padded: [%m], [%d], [%H],
    [%M], [%S] at width 2 and [%Y] at width 4 on the fields of a
    [datetime] (years 1 to 9999, months 1 to 12, and so on). *)
Fixpoint zero_padded (width n : nat) : string :=
  match width with
  | O => EmptyString
  | S width' => zero_padded width' (n / 10)%nat +:+ String (digit n) EmptyString
  end.

(** [dt.strftime("%Y%m%dT%H%M%SZ")] *)
Definition strftime (dt : datetime) : string :=
  zero_padded 4 (year dt) +:+ zero_padded 2 (month dt)
    +:+ zero_padded 2 (day dt) +:+ "T"
    +:+ zero_padded 2 (hour dt) +:+ zero_padded 2 (minute dt)
    +:+ zero_padded 2 (second dt) +:+ "Z".

(** What an f-string writes for [{api_key}]: the text itself, and [None]
    for the absent value. *)
Definition format_value (v : option string) : string :=
  match v with
  | Some s => s
  | None => "None"
  end.

(** [response.raise_for_status()]: httpx raises [HTTPStatusError], a
    subclass of [HTTPError], unless the status is 2xx. Its message is only
    logged. *)
Definition raise_for_status (response : Response) : M unit :=
  if is_success response then ret tt
  else raise (HTTPError "HTTPStatusError").

(** [httpx.Client(timeout=30.0)] *)
Definition Client (seconds : Z) : M HttpClient :=
  w <- ask ;;
  match Client_init w with
  | Some msg => raise (OtherError msg)
  | None => ret {| timeout := seconds |}
  end.

(** [client.get(url)] *)
Definition Client_get_call (client : HttpClient) (target : string) : M Response :=
  call_result (HttpGet target) (λ w, Client_get_outcome w target).

(** [client.close()], which [__exit__] calls: nothing is sent and nothing
    is raised. *)
Definition Client_close (client : HttpClient) : M unit := ret tt.

(** [with resource as x: body]. The resource is built and entered; the
    body runs; the resource is closed whether the body returned or raised,
    and an exception of the body goes on to the caller of the block. *)
Definition with_ {A B} (resource : M A) (close : A → M unit)
    (body : A → M B) : M B :=
  x <- resource ;;
  λ w s,
    match body x w s with
    | (r, s1, evs1) =>
        match close x w s1 with
        | (Ok _, s2, evs2) => (r, s2, evs1 ++ evs2)
        | (Raise e, s2, evs2) => (Raise e, s2, evs1 ++ evs2)
        end
    end.

Definition get_container_client (service : BlobServiceClient)
    (container : string) : M ContainerClient :=
  call (ContainerHandle container)
       (λ w, get_container_client_outcome w service container) ;;;
  ret {| cc_service := service; cc_container := container |}.

Definition get_blob_client (container : ContainerClient)
    (blob : string) : M BlobClient :=
  call (BlobHandle (cc_container container) blob)
       (λ w, get_blob_client_outcome w container blob) ;;;
  ret {| bc_container := container; bc_blob := blob |}.

(** [blob_client.upload_blob(data, overwrite=True)] *)
Definition upload_blob (blob : BlobClient) (data : string) : M unit :=
  call (UploadBlob (cc_container (bc_container blob)) (bc_blob blob) data)
       (λ w, upload_blob_outcome w blob data).

(** *** The handler *)

(** A [try] block either falls through with the values it bound or leaves
    the function with a response. *)
Inductive flow (A : Type) : Type :=
| Continue (a : A)
| Return (response : HttpResponse).
Arguments Continue {A} a.
Arguments Return {A} response.

(** Lines 20-26. *)
Definition load_config : M (flow (string * string * string)) :=
  try_except
    (api_url <- environ_getitem "API_URL" ;;
     let endpoint_url := api_url +:+ "/flights" in
     container_name <- environ_getitem "ADLS_FILE_SYSTEM" ;;
     path_prefix <- getenv "ADLS_PATH_PREFIX" "flights" ;;
     ret (Continue (endpoint_url, container_name, path_prefix)))
    is_KeyError
    (λ e, ret (Return {| body := "Configuration error: Missing " +:+ str e;
                         status_code := 500 |})).

(** Lines 30-38. *)
Definition fetch (endpoint_url : string) : M (flow string) :=
  try_except
    (with_ (Client 30) Client_close (λ client,
       response <- Client_get_call client endpoint_url ;;
       raise_for_status response ;;;
       let data := text response in
       ret (Continue data)))
    is_HTTPError
    (λ e, ret (Return {| body := "Failed to fetch data from endpoint";
                         status_code := 502 |})).

(** The name under which the payload is stored (line 45). *)
Definition blob_name_of (path_prefix timestamp : string) : string :=
  rstrip "/" path_prefix +:+ "/" +:+ timestamp +:+ ".json".

(** Lines 41-54, the body of the last [try]. *)
Definition save (container_name path_prefix data : string) : M HttpResponse :=
  blob_service_client <- get_blob_service_client ;;
  container_client <- get_container_client blob_service_client container_name ;;
  w <- ask ;;
  let timestamp := strftime (utc_now w) in
  let blob_name := blob_name_of path_prefix timestamp in
  blob_client <- get_blob_client container_client blob_name ;;
  upload_blob blob_client data ;;;
  ret {| body := "Data saved successfully to "
                   +:+ container_name +:+ "/" +:+ blob_name;
         status_code := 200 |}.

Definition http_trigger (req : HttpRequest) : M HttpResponse :=
  config <- load_config ;;
  match config with
  | Return response => ret response
  | Continue (endpoint_url, container_name, path_prefix) =>
      api_key <- get_secret "api-key" ;;
      let endpoint_url := endpoint_url +:+ "?key=" +:+ format_value api_key in
      fetched <- fetch endpoint_url ;;
      match fetched with
      | Return response => ret response
      | Continue data =>
          try_except
            (save container_name path_prefix data)
            is_Exception
            (λ e, ret {| body := "Failed to save data to storage: " +:+ str e;
                         status_code := 500 |})
      end
  end.

(** Names for the parts of the handler the statements below speak of:
    the response of line 38, the last [try] statement as a whole (lines
    40-59), and the blob the storage stage writes to. *)
Definition bad_gateway : HttpResponse :=
  {| body := "Failed to fetch data from endpoint"; status_code := 502 |}.

Definition save_or_500 (container_name path_prefix data : string) : M HttpResponse :=
  try_except (save container_name path_prefix data) is_Exception
    (λ e, ret {| body := "Failed to save data to storage: " +:+ str e;
                 status_code := 500 |}).

Definition target_blob (w : World) (path_prefix : string) : string :=
  blob_name_of path_prefix (strftime (utc_now w)).

(** What the fetch stage sends when it is over: the GET, unless the
    client could not be built. *)
Definition fetch_trace (w : World) (endpoint_url : string) : list event :=
  match Client_init w with
  | Some _ => []
  | None => [HttpGet endpoint_url]
  end.

(** The ways the storage stage can raise [e] from state [s]: while the
    service client is built (a missing [STORAGE_ACCOUNT_NAME], the
    credential, the constructor), at the container handle, at the blob
    handle, or at the upload. *)
Inductive storage_raises (w : World) (s : State)
    (container_name path_prefix data : string) (e : exn) : Prop :=
| client_construction_raises s1 evs1 :
    get_blob_service_client w s = (Raise e, s1, evs1) →
    storage_raises w s container_name path_prefix data e
| container_handle_raises service s1 evs1 :
    get_blob_service_client w s = (Ok service, s1, evs1) →
    get_container_client_outcome w service container_name = Some e →
    storage_raises w s container_name path_prefix data e
| blob_handle_raises service s1 evs1 :
    get_blob_service_client w s = (Ok service, s1, evs1) →
    get_container_client_outcome w service container_name = None →
    get_blob_client_outcome w
      {| cc_service := service; cc_container := container_name |}
      (target_blob w path_prefix) = Some e →
    storage_raises w s container_name path_prefix data e
| upload_raises service s1 evs1 :
    get_blob_service_client w s = (Ok service, s1, evs1) →
    get_container_client_outcome w service container_name = None →
    get_blob_client_outcome w
      {| cc_service := service; cc_container := container_name |}
      (target_blob w path_prefix) = None →
    upload_blob_outcome w
      {| bc_container :=
           {| cc_service := service; cc_container := container_name |};
         bc_blob := target_blob w path_prefix |} data = Some e →
    storage_raises w s container_name path_prefix data e.

(** The storage write succeeds from state [s]: every call of the stage
    returns. *)
Definition storage_returns (w : World) (s : State)
    (container_name path_prefix data : string) : Prop :=
  ∃ service s1 evs1,
    get_blob_service_client w s = (Ok service, s1, evs1) ∧
    get_container_client_outcome w service container_name = None ∧
    get_blob_client_outcome w
      {| cc_service := service; cc_container := container_name |}
      (target_blob w path_prefix) = None ∧
    upload_blob_outcome w
      {| bc_container :=
           {| cc_service := service; cc_container := container_name |};
         bc_blob := target_blob w path_prefix |} data = None.

(** [n] times the character [c]. *)
Fixpoint repeated (c : ascii) (n : nat) : string :=
  match n with
  | O => EmptyString
  | S n' => String c (repeated c n')
  end.

(** The required key whose lookup fails first, in the order of lines 21-22. *)
Definition first_missing (w : World) : string :=
  match environ w !! "API_URL" with
  | None => "API_URL"
  | Some _ => "ADLS_FILE_SYSTEM"
  end.

End function_app.

(** ** One process, many calls *)

Module process.
Import key_vault function_app.

(** The functions of the repository a caller can reach. *)
Inductive entry_point : Type :=
| call_get_credential
| call_get_secret_client
| call_get_secret (secret_name : string)
| call_get_blob_service_client
| call_http_trigger (req : HttpRequest).

(** Forget what a call returned. *)
Definition discard {A} (x : result A * State * list event)
    : list (result Credential) * State * list event :=
  match x with (_, s, evs) => ([], s, evs) end.

(** One call in a given world. What [get_credential] hands to its caller
    is kept, so that two calls can be compared. *)
Definition run_call (c : entry_point) (w : World) (s : State)
    : list (result Credential) * State * list event :=
  match c with
  | call_get_credential =>
      match get_credential w s with (r, s', evs) => ([r], s', evs) end
  | call_get_secret_client => discard (get_secret_client w s)
  | call_get_secret secret_name => discard (get_secret secret_name w s)
  | call_get_blob_service_client => discard (get_blob_service_client w s)
  | call_http_trigger req => discard (http_trigger req w s)
  end.

(** A process lifetime: calls one after the other on the same caches, the
    world free to change between them. *)
Fixpoint run (calls : list (World * entry_point)) (s : State)
    : list (result Credential) * State * list event :=
  match calls with
  | [] => ([], s, [])
  | (w, c) :: calls' =>
      match run_call c w s with
      | (rs1, s1, evs1) =>
          match run calls' s1 with
          | (rs2, s2, evs2) => (rs1 ++ rs2, s2, evs1 ++ evs2)
          end
      end
  end.

Definition is_call_get_credential (c : World * entry_point) : bool :=
  match c with (_, call_get_credential) => true | _ => false end.

End process.

(** ** Invariants of computations *)

(** [maintains I P m]: from a state in [I], [m] ends in a state in [I] and
    every event it emits is in [P], whatever the world and the outcome. *)
Definition maintains {A} (I : State → Prop) (P : event → Prop) (m : M A) : Prop :=
  ∀ w s, I s → I (m w s).1.2 ∧ Forall P (m w s).2.

(** The cache of [get_credential] holds [c]. *)
Definition has_credential (c : Credential) (s : State) : Prop :=
  credential_cache s = Some c.

(** The cache of [get_secret_client] holds [client]. *)
Definition has_secret_client (client : SecretClient) (s : State) : Prop :=
  secret_client_cache s = Some client.

(** A cached secret client was built with the cached credential. *)
Definition consistent (s : State) : Prop :=
  ∀ client, secret_client_cache s = Some client →
            credential_cache s = Some (sc_credential client).

(** What [get_credential] and [get_secret_client] would hand out in world
    [w] from state [s]: the cached object, or the outcome of building one. *)
Definition effective_credential (w : World) (s : State) : result Credential :=
  (key_vault.get_credential w s).1.1.

Definition effective_secret_client (w : World) (s : State)
    : result SecretClient :=
  (key_vault.get_secret_client w s).1.1.

Definition gives (w : World) (credential : result Credential)
    (client : result SecretClient) (s : State) : Prop :=
  effective_credential w s = credential ∧
  effective_secret_client w s = client.

(** [maintains_in w I m]: run in world [w] from a state in [I], [m] ends
    in a state in [I]. *)
Definition maintains_in {A} (w : World) (I : State → Prop) (m : M A) : Prop :=
  ∀ s, I s → I (m w s).1.2.

(** The ranges of the fields of a Python [datetime]. *)
Definition valid_datetime (dt : datetime) : Prop :=
  1 ≤ Z.of_nat (year dt) ≤ 9999 ∧
  (1 ≤ month dt ≤ 12 ∧ 1 ≤ day dt ≤ 31 ∧
   hour dt < 24 ∧ minute dt < 60 ∧ second dt < 60)%nat.

(** ** The scenarios of the test suite *)

Module scenarios.
Import key_vault function_app.

Definition request : HttpRequest :=
  {| method := "GET"; url := "/api/http_trigger"; req_body := "" |}.

Definition quote : string := String (Ascii.ascii_of_nat 34) "".
Definition newline : string := String (Ascii.ascii_of_nat 10) "".

(** The payload of the tests, an empty list of flights. *)
Definition payload : string :=
  "{" +:+ quote +:+ "flights" +:+ quote +:+ ": []}".

(** A world in which every service answers: the secret is [test-api-key],
    the API returns the payload, the clock shows 2023-11-10T12:00:00Z. *)
Definition healthy (env : gmap string string) : World :=
  {| environ := env;
     DefaultAzureCredential_init := None;
     SecretClient_init := λ _ _, None;
     SecretClient_get_secret := λ _ _, Ok (Some "test-api-key");
     Client_init := None;
     Client_get_outcome := λ _, Ok {| http_status := 200; text := payload |};
     BlobServiceClient_init := λ _ _, None;
     get_container_client_outcome := λ _ _, None;
     get_blob_client_outcome := λ _ _, None;
     upload_blob_outcome := λ _ _, None;
     utc_now := {| year := 2023; month := 11; day := 10;
                   hour := 12; minute := 0; second := 0 |} |}.

Definition test_env : gmap string string :=
  <["API_URL" := "https://api.example.com"]>
  (<["ADLS_FILE_SYSTEM" := "test-container"]>
  (<["KEY_VAULT_URL" := "https://test-vault.vault.azure.net/"]>
  (<["STORAGE_ACCOUNT_NAME" := "teststorage"]> ∅))).

(** The same world with another answer of the vault, of the API, of the
    upload. *)
Definition with_secret (o : result (option string)) (w : World) : World :=
  {| environ := environ w;
     DefaultAzureCredential_init := DefaultAzureCredential_init w;
     SecretClient_init := SecretClient_init w;
     SecretClient_get_secret := λ _ _, o;
     Client_init := Client_init w;
     Client_get_outcome := Client_get_outcome w;
     BlobServiceClient_init := BlobServiceClient_init w;
     get_container_client_outcome := get_container_client_outcome w;
     get_blob_client_outcome := get_blob_client_outcome w;
     upload_blob_outcome := upload_blob_outcome w;
     utc_now := utc_now w |}.

Definition with_get (o : result Response) (w : World) : World :=
  {| environ := environ w;
     DefaultAzureCredential_init := DefaultAzureCredential_init w;
     SecretClient_init := SecretClient_init w;
     SecretClient_get_secret := SecretClient_get_secret w;
     Client_init := Client_init w;
     Client_get_outcome := λ _, o;
     BlobServiceClient_init := BlobServiceClient_init w;
     get_container_client_outcome := get_container_client_outcome w;
     get_blob_client_outcome := get_blob_client_outcome w;
     upload_blob_outcome := upload_blob_outcome w;
     utc_now := utc_now w |}.

Definition with_upload (o : option exn) (w : World) : World :=
  {| environ := environ w;
     DefaultAzureCredential_init := DefaultAzureCredential_init w;
     SecretClient_init := SecretClient_init w;
     SecretClient_get_secret := SecretClient_get_secret w;
     Client_init := Client_init w;
     Client_get_outcome := Client_get_outcome w;
     BlobServiceClient_init := BlobServiceClient_init w;
     get_container_client_outcome := get_container_client_outcome w;
     get_blob_client_outcome := get_blob_client_outcome w;
     upload_blob_outcome := λ _ _, o;
     utc_now := utc_now w |}.

(** The process once the secret has been resolved for the first time in
    [test_env]: both caches are filled. *)
Definition resolved_state : State :=
  {| credential_cache := Some {| cred_id := 0 |};
     secret_client_cache :=
       Some {| vault_url := "https://test-vault.vault.azure.net/";
               sc_credential := {| cred_id := 0 |} |};
     next_id := 1 |}.

Definition resolved_events : list event :=
  [NewCredential;
   NewSecretClient "https://test-vault.vault.azure.net/";
   SecretLookup "https://test-vault.vault.azure.net/" "api-key"].

(** [test_http_trigger_success] and [test_http_trigger_default_path_prefix]. *)
Definition success_world : World := healthy test_env.

(** A prefix with a trailing slash. *)
Definition slash_world : World :=
  healthy (<["ADLS_PATH_PREFIX" := "flights/"]> test_env).

(** [test_get_secret_not_found]: the vault does not know the secret. *)
Definition no_secret_world : World :=
  with_secret (Raise (OtherError "Secret not found")) (healthy test_env).

(** [test_http_trigger_http_request_fails] *)
Definition unreachable_world : World :=
  with_get (Raise (HTTPError "Connection failed")) (healthy test_env).

(** The API answers 404. *)
Definition not_found_world : World :=
  with_get (Ok {| http_status := 404; text := "Not Found" |}) (healthy test_env).

(** [test_http_trigger_blob_upload_fails] *)
Definition upload_fails_world : World :=
  with_upload (Some (OtherError "Storage error")) (healthy test_env).

(** The stored secret ends in a newline; httpx refuses the URL with
    [InvalidURL], which is not an [HTTPError]. *)
Definition invalid_url_world : World :=
  with_get (Raise (OtherError "Invalid non-printable ASCII character in URL"))
    (with_secret (Ok (Some ("test-api-key" +:+ newline))) (healthy test_env)).

(** The constructor of the secret client raises. *)
Definition vault_down_world : World :=
  {| environ := test_env;
     DefaultAzureCredential_init := None;
     SecretClient_init := λ _ _, Some (OtherError "Vault unreachable");
     SecretClient_get_secret := λ _ _, Ok (Some "test-api-key");
     Client_init := None;
     Client_get_outcome := λ _, Ok {| http_status := 200; text := payload |};
     BlobServiceClient_init := λ _ _, None;
     get_container_client_outcome := λ _ _, None;
     get_blob_client_outcome := λ _ _, None;
     upload_blob_outcome := λ _ _, None;
     utc_now := utc_now (healthy test_env) |}.

(** No identity is available: the constructor of the credential raises. *)
Definition no_identity_world : World :=
  {| environ := test_env;
     DefaultAzureCredential_init := Some (OtherError "No credential");
     SecretClient_init := λ _ _, None;
     SecretClient_get_secret := λ _ _, Ok (Some "test-api-key");
     Client_init := None;
     Client_get_outcome := λ _, Ok {| http_status := 200; text := payload |};
     BlobServiceClient_init := λ _ _, None;
     get_container_client_outcome := λ _ _, None;
     get_blob_client_outcome := λ _ _, None;
     upload_blob_outcome := λ _ _, None;
     utc_now := utc_now (healthy test_env) |}.

(** A proxy variable of the process names a scheme httpx does not know:
    the constructor of the client raises [ValueError]. *)
Definition bad_proxy_world : World :=
  {| environ := <["ALL_PROXY" := "foo://127.0.0.1:1"]> test_env;
     DefaultAzureCredential_init := None;
     SecretClient_init := λ _ _, None;
     SecretClient_get_secret := λ _ _, Ok (Some "test-api-key");
     Client_init := Some "Unknown scheme for proxy URL";
     Client_get_outcome := λ _, Ok {| http_status := 200; text := payload |};
     BlobServiceClient_init := λ _ _, None;
     get_container_client_outcome := λ _ _, None;
     get_blob_client_outcome := λ _ _, None;
     upload_blob_outcome := λ _ _, None;
     utc_now := utc_now (healthy test_env) |}.

(** The client and the service of the tests. *)
Definition test_secret_client : SecretClient :=
  {| vault_url := "https://test-vault.vault.azure.net/";
     sc_credential := {| cred_id := 0 |} |}.

Definition test_blob_service_client : BlobServiceClient :=
  {| account_url := "https://teststorage.blob.core.windows.net";
     bsc_credential := {| cred_id := 0 |} |}.

(** The process after a first [get_credential]. *)
Definition credential_state : State :=
  {| credential_cache := Some {| cred_id := 0 |};
     secret_client_cache := None;
     next_id := 1 |}.

End scenarios.

(** ** Properties *)

Section properties.
Import key_vault function_app process scenarios.

(** *** Strings *)

Lemma append_cons (x : ascii) (a b : string) :
  String x a +:+ b = String x (a +:+ b).
Proof. reflexivity. Qed.

Lemma append_assoc (a b c : string) : (a +:+ b) +:+ c = a +:+ b +:+ c.
Proof.
  induction a as [|x a IH]; [done|]. rewrite !append_cons. by rewrite IH.
Qed.

Lemma length_append (a b : string) :
  String.length (a +:+ b) = (String.length a + String.length b)%nat.
Proof.
  induction a as [|x a IH]; [done|]. rewrite append_cons. simpl.
  by rewrite IH.
Qed.

(** Cancelling a common ending. *)
Lemma append_inv_tail (a b c : string) : a +:+ c = b +:+ c → a = b.
Proof.
  revert b. induction a as [|x a IH]; intros [|y b] H.
  - done.
  - apply (f_equal String.length) in H.
    rewrite !length_append in H. simpl in H. lia.
  - apply (f_equal String.length) in H.
    rewrite !length_append in H. simpl in H. lia.
  - rewrite !append_cons in H. injection H as -> H. f_equal. by apply IH.
Qed.

(** The URL of the request, as the specification writes it. *)
Lemma endpoint_url_eq (api key : string) :
  (api +:+ "/flights") +:+ "?key=" +:+ key = api +:+ "/flights?key=" +:+ key.
Proof. by rewrite append_assoc. Qed.

(** *** Sequencing *)

Ltac unfold_monad :=
  unfold call, call_result, environ_getitem, getenv, emit, ask, get_state,
    put_state, raise, ret, try_except, bind in *.

Lemma bind_Ok {A B} (m : M A) (k : A → M B) w s a s1 evs1 :
  m w s = (Ok a, s1, evs1) →
  bind m k w s = match k a w s1 with (r, s2, evs2) => (r, s2, evs1 ++ evs2) end.
Proof. intros H. unfold bind. by rewrite H. Qed.

(** *** Rules for [maintains] *)

Section maintains_rules.
Context (I : State → Prop) (P : event → Prop).

Lemma maintains_ret {A} (a : A) : maintains I P (ret a).
Proof. intros w s Hs. by split; [|constructor]. Qed.

Lemma maintains_raise {A} (e : exn) : maintains I P (raise (A:=A) e).
Proof. intros w s Hs. by split; [|constructor]. Qed.

Lemma maintains_bind {A B} (m : M A) (k : A → M B) :
  maintains I P m → (∀ a, maintains I P (k a)) → maintains I P (bind m k).
Proof.
  intros Hm Hk w s Hs. unfold bind.
  destruct (Hm w s Hs) as [Hs1 Hevs1].
  destruct (m w s) as [[[a|e] s1] evs1]; simpl in *; [|done].
  destruct (Hk a w s1 Hs1) as [Hs2 Hevs2].
  destruct (k a w s1) as [[r s2] evs2]; simpl in *.
  split; [done|]. by apply Forall_app.
Qed.

Lemma maintains_try_except {A} (m : M A) (catches : exn → bool)
    (handler : exn → M A) :
  maintains I P m → (∀ e, maintains I P (handler e)) →
  maintains I P (try_except m catches handler).
Proof.
  intros Hm Hh w s Hs. unfold try_except.
  destruct (Hm w s Hs) as [Hs1 Hevs1].
  destruct (m w s) as [[[a|e] s1] evs1]; simpl in *; [done|].
  destruct (catches e); [|done].
  destruct (Hh e w s1 Hs1) as [Hs2 Hevs2].
  destruct (handler e w s1) as [[r s2] evs2]; simpl in *.
  split; [done|]. by apply Forall_app.
Qed.

Lemma maintains_call (ev : event) (outcome : World → option exn) :
  P ev → maintains I P (call ev outcome).
Proof.
  intros Hev w s Hs. unfold_monad. simpl.
  destruct (outcome w); simpl; split; by repeat constructor.
Qed.

Lemma maintains_call_result {A} (ev : event) (outcome : World → result A) :
  P ev → maintains I P (call_result ev outcome).
Proof.
  intros Hev w s Hs. unfold_monad. simpl.
  destruct (outcome w); simpl; split; by repeat constructor.
Qed.

Lemma maintains_environ_getitem (key : string) :
  maintains I P (environ_getitem key).
Proof.
  intros w s Hs. unfold_monad. simpl.
  destruct (environ w !! key); simpl; split; by repeat constructor.
Qed.

Lemma maintains_getenv (key fallback : string) :
  maintains I P (getenv key fallback).
Proof. intros w s Hs. unfold_monad. simpl. split; by repeat constructor. Qed.

Lemma maintains_ask : maintains I P ask.
Proof. intros w s Hs. by split; [|constructor]. Qed.

Lemma maintains_with {A B} (resource : M A) (close : A → M unit)
    (body : A → M B) :
  maintains I P resource → (∀ x, maintains I P (close x)) →
  (∀ x, maintains I P (body x)) →
  maintains I P (with_ resource close body).
Proof.
  intros Hr Hc Hb. apply maintains_bind; [done|]. intros x w s Hs.
  destruct (Hb x w s Hs) as [Hs1 Hevs1].
  destruct (body x w s) as [[r s1] evs1]. simpl in *.
  destruct (Hc x w s1 Hs1) as [Hs2 Hevs2].
  destruct (close x w s1) as [[[u|e] s2] evs2]; simpl in *;
    (split; [done|by apply Forall_app]).
Qed.

Lemma maintains_Client (seconds : Z) : maintains I P (Client seconds).
Proof.
  intros w s Hs. unfold Client. unfold_monad. simpl.
  destruct (Client_init w); simpl; split; by repeat constructor.
Qed.

(** A cached function maintains what its body maintains, provided storing
    the value does. *)
Lemma maintains_functools_cache {A} (cached : State → option A)
    (store : A → State → State) (f : M A) :
  (∀ a s, I s → I (store a s)) →
  maintains I P f →
  maintains I P (functools_cache cached store f).
Proof.
  intros Hstore Hf w s Hs. unfold functools_cache. unfold_monad. simpl.
  destruct (cached s) as [a|]; simpl; [by split; [|constructor]|].
  destruct (Hf w s Hs) as [Hs1 Hevs1].
  destruct (f w s) as [[[a|e] s1] evs1]; simpl in *; [|done].
  split; [by apply Hstore|]. by rewrite !app_nil_r.
Qed.

End maintains_rules.

(** *** key_vault.py, function by function *)

(** [get_credential], case by case: the cached instance, or one run of the
    constructor, whose value is stored only when it returns. *)
Lemma get_credential_eq (w : World) (s : State) :
  get_credential w s =
    match credential_cache s with
    | Some c => (Ok c, s, [])
    | None =>
        match DefaultAzureCredential_init w with
        | Some e => (Raise e, s, [NewCredential])
        | None =>
            (Ok {| cred_id := next_id s |},
             {| credential_cache := Some {| cred_id := next_id s |};
                secret_client_cache := secret_client_cache s;
                next_id := S (next_id s) |},
             [NewCredential])
        end
    end.
Proof.
  unfold get_credential, functools_cache, DefaultAzureCredential, fresh_id.
  unfold_monad. destruct (credential_cache s) as [c|]; [done|]. simpl.
  by destruct (DefaultAzureCredential_init w).
Qed.

Lemma get_secret_client_cached w s client :
  secret_client_cache s = Some client →
  get_secret_client w s = (Ok client, s, []).
Proof.
  intros Hc. unfold get_secret_client, functools_cache. unfold_monad.
  by rewrite Hc.
Qed.

Lemma get_secret_client_KeyError w s :
  secret_client_cache s = None →
  environ w !! "KEY_VAULT_URL" = None →
  get_secret_client w s = (Raise (KeyError "KEY_VAULT_URL"), s, []).
Proof.
  intros Hc He. unfold get_secret_client, functools_cache. unfold_monad.
  by rewrite Hc, He.
Qed.

(** The blanket [except Exception] of [get_secret]: the outcome of its
    body decides the value, and nothing is raised. *)
Lemma get_secret_eq (secret_name : string) (w : World) (s : State) :
  get_secret secret_name w s =
    match get_secret_client w s with
    | (Ok client, s1, evs1) =>
        (Ok match SecretClient_get_secret w client secret_name with
            | Ok value => value
            | Raise _ => None
            end,
         s1, evs1 ++ [SecretLookup (vault_url client) secret_name])
    | (Raise _, s1, evs1) => (Ok None, s1, evs1)
    end.
Proof.
  unfold get_secret, try_except, bind at 1.
  destruct (get_secret_client w s) as [[[client|e] s1] evs1].
  - unfold_monad. simpl.
    destruct (SecretClient_get_secret w client secret_name) as [value|e];
      simpl; by rewrite ?app_nil_r.
  - simpl. unfold_monad. by rewrite app_nil_r.
Qed.

Lemma get_secret_Ok (secret_name : string) (w : World) (s : State) :
  ∃ v s' evs, get_secret secret_name w s = (Ok v, s', evs).
Proof.
  rewrite get_secret_eq.
  destruct (get_secret_client w s) as [[[client|e] s1] evs1]; eauto.
Qed.

Section repository_rules.
Context (I : State → Prop) (P : event → Prop).
Hypothesis get_credential_ok : maintains I P get_credential.
Hypothesis store_secret_client_ok : ∀ c s, I s → I (store_secret_client c s).

Lemma maintains_get_secret_client :
  (∀ v, P (NewSecretClient v)) → maintains I P get_secret_client.
Proof.
  intros HP. apply maintains_functools_cache; [done|].
  apply maintains_bind; [apply maintains_environ_getitem|intros url].
  apply maintains_bind; [done|intros c].
  apply maintains_bind; [by apply maintains_call|intros _].
  apply maintains_ret.
Qed.

Lemma maintains_get_secret (secret_name : string) :
  (∀ v, P (NewSecretClient v)) → (∀ v n, P (SecretLookup v n)) →
  maintains I P (get_secret secret_name).
Proof.
  intros HP1 HP2. apply maintains_try_except; [|intros; apply maintains_ret].
  apply maintains_bind; [by apply maintains_get_secret_client|intros c].
  apply maintains_bind; [by apply maintains_call_result|intros v].
  apply maintains_ret.
Qed.

Lemma maintains_get_blob_service_client :
  (∀ a, P (NewBlobServiceClient a)) → maintains I P get_blob_service_client.
Proof.
  intros HP. apply maintains_bind; [apply maintains_environ_getitem|intros n].
  apply maintains_bind; [done|intros c].
  apply maintains_bind; [by apply maintains_call|intros _].
  apply maintains_ret.
Qed.

Lemma maintains_load_config : maintains I P load_config.
Proof.
  apply maintains_try_except; [|intros; apply maintains_ret].
  apply maintains_bind; [apply maintains_environ_getitem|intros api].
  apply maintains_bind; [apply maintains_environ_getitem|intros c].
  apply maintains_bind; [apply maintains_getenv|intros p].
  apply maintains_ret.
Qed.

Lemma maintains_fetch (endpoint_url : string) :
  P (HttpGet endpoint_url) → maintains I P (fetch endpoint_url).
Proof.
  intros HP. apply maintains_try_except; [|intros; apply maintains_ret].
  apply maintains_with;
    [apply maintains_Client|intros; apply maintains_ret|intros client].
  apply maintains_bind; [by apply maintains_call_result|intros r].
  apply maintains_bind; [|intros _; apply maintains_ret].
  unfold raise_for_status.
  destruct (is_success r); [apply maintains_ret|apply maintains_raise].
Qed.

Lemma maintains_save (container_name path_prefix data : string) :
  (∀ ev, is_storage ev = true → P ev) →
  maintains I P (save container_name path_prefix data).
Proof.
  intros HP.
  apply maintains_bind; [by apply maintains_get_blob_service_client; auto|].
  intros service. apply maintains_bind.
  { apply maintains_bind; [by apply maintains_call; auto|intros _].
    apply maintains_ret. }
  intros container. apply maintains_bind; [apply maintains_ask|intros w].
  apply maintains_bind.
  { apply maintains_bind; [by apply maintains_call; auto|intros _].
    apply maintains_ret. }
  intros blob. apply maintains_bind; [by apply maintains_call; auto|intros _].
  apply maintains_ret.
Qed.

Lemma maintains_save_or_500 (container_name path_prefix data : string) :
  (∀ ev, is_storage ev = true → P ev) →
  maintains I P (save_or_500 container_name path_prefix data).
Proof.
  intros HP. apply maintains_try_except; [by apply maintains_save|].
  intros; apply maintains_ret.
Qed.

Lemma maintains_http_trigger (req : HttpRequest) :
  (∀ ev, is_new_credential ev = false → P ev) →
  maintains I P (http_trigger req).
Proof.
  intros HP. apply maintains_bind; [apply maintains_load_config|].
  intros [[[endpoint_url container_name] path_prefix]|response];
    [|apply maintains_ret].
  apply maintains_bind; [by apply maintains_get_secret; auto|intros key].
  apply maintains_bind; [by apply maintains_fetch; auto|].
  intros [data|response]; [|apply maintains_ret].
  apply (maintains_save_or_500 container_name path_prefix data).
  intros [] ?; by auto.
Qed.

End repository_rules.

(** The two uses of the rules: what a function may emit at all, and what
    it does once a credential is cached. *)
Lemma get_credential_emits (P : event → Prop) :
  P NewCredential → maintains (λ _, True) P get_credential.
Proof.
  intros HP w s _. rewrite get_credential_eq.
  destruct (credential_cache s), (DefaultAzureCredential_init w); simpl;
    split; by repeat constructor.
Qed.

Lemma get_credential_keeps (c : Credential) :
  maintains (has_credential c) (λ ev, is_new_credential ev = false)
    get_credential.
Proof.
  intros w s Hs. rewrite get_credential_eq, Hs. simpl.
  split; by repeat constructor.
Qed.

(** [get_secret] talks to the vault only. *)
Lemma get_secret_events (secret_name : string) (w : World) (s : State) :
  Forall (λ ev, is_storage ev = false ∧ is_http_get ev = false)
    (get_secret secret_name w s).2.
Proof.
  apply (maintains_get_secret (λ _, True)); try done.
  by apply get_credential_emits.
Qed.

Lemma get_blob_service_client_events (w : World) (s : State) :
  Forall (λ ev, is_outbound ev = false) (get_blob_service_client w s).2.
Proof.
  apply (maintains_get_blob_service_client (λ _, True)); try done.
  by apply get_credential_emits.
Qed.

(** *** function_app.py, stage by stage *)

Lemma load_config_Continue (w : World) (s : State) (api container : string) :
  environ w !! "API_URL" = Some api →
  environ w !! "ADLS_FILE_SYSTEM" = Some container →
  load_config w s =
    (Ok (Continue (api +:+ "/flights", container,
                   default "flights" (environ w !! "ADLS_PATH_PREFIX"))), s, []).
Proof.
  intros Hapi Hc. unfold load_config. unfold_monad. by rewrite Hapi, Hc.
Qed.

(** With a required key missing the handler is over after the first stage. *)
Lemma http_trigger_missing (req : HttpRequest) (w : World) (s : State) :
  environ w !! "API_URL" = None ∨ environ w !! "ADLS_FILE_SYSTEM" = None →
  http_trigger req w s
    = (Ok {| body := "Configuration error: Missing '"
                       +:+ first_missing w +:+ "'";
             status_code := 500 |}, s, []).
Proof.
  intros Hmissing. unfold http_trigger, load_config, first_missing.
  unfold_monad.
  destruct (environ w !! "API_URL") as [api|]; [|done].
  destruct Hmissing as [?|Hc]; [done|]. by rewrite Hc.
Qed.

(** The fetch stage, outcome by outcome. *)
Lemma fetch_eq (endpoint_url : string) (w : World) (s : State) :
  fetch endpoint_url w s =
    match Client_get w endpoint_url with
    | Ok r =>
        if is_success r then (Ok (Continue (text r)), s, [HttpGet endpoint_url])
        else (Ok (Return bad_gateway), s, [HttpGet endpoint_url])
    | Raise e =>
        if is_HTTPError e then (Ok (Return bad_gateway), s, [HttpGet endpoint_url])
        else (Raise e, s, fetch_trace w endpoint_url)
    end.
Proof.
  unfold fetch, with_, Client, Client_get_call, Client_close, raise_for_status.
  unfold Client_get, fetch_trace. unfold_monad.
  destruct (Client_init w) as [msg|]; simpl; [done|].
  destruct (Client_get_outcome w endpoint_url) as [r|e]; simpl.
  - by destruct (is_success r).
  - by destruct (is_HTTPError e).
Qed.

(** The GET is made exactly when the client was built. *)
Lemma Client_get_Ok (w : World) (target : string) (r : Response) :
  Client_get w target = Ok r → Client_init w = None.
Proof. unfold Client_get. by destruct (Client_init w). Qed.

Lemma Client_get_HTTPError (w : World) (target : string) (e : exn) :
  Client_get w target = Raise e → is_HTTPError e = true →
  Client_init w = None.
Proof.
  unfold Client_get. destruct (Client_init w); [|done]. by intros [= <-].
Qed.

Lemma fetch_trace_events (w : World) (endpoint_url : string) :
  Forall (λ ev, ev = HttpGet endpoint_url) (fetch_trace w endpoint_url).
Proof. unfold fetch_trace. destruct (Client_init w); by repeat constructor. Qed.

(** The storage stage, call by call. The upload is the last call, and the
    stage returns exactly when the upload returns. *)
Lemma save_eq (container_name path_prefix data : string) (w : World) (s : State) :
  save container_name path_prefix data w s =
    match get_blob_service_client w s with
    | (Ok service, s1, evs1) =>
        let container := {| cc_service := service; cc_container := container_name |} in
        let blob := {| bc_container := container;
                       bc_blob := target_blob w path_prefix |} in
        match get_container_client_outcome w service container_name with
        | Some e => (Raise e, s1, evs1 ++ [ContainerHandle container_name])
        | None =>
        match get_blob_client_outcome w container (target_blob w path_prefix) with
        | Some e =>
            (Raise e, s1,
             evs1 ++ [ContainerHandle container_name;
                      BlobHandle container_name (target_blob w path_prefix)])
        | None =>
            (match upload_blob_outcome w blob data with
             | Some e => Raise e
             | None =>
                 Ok {| body := "Data saved successfully to " +:+ container_name
                                 +:+ "/" +:+ target_blob w path_prefix;
                       status_code := 200 |}
             end, s1,
             evs1 ++ [ContainerHandle container_name;
                      BlobHandle container_name (target_blob w path_prefix);
                      UploadBlob container_name (target_blob w path_prefix) data])
        end
        end
    | (Raise e, s1, evs1) => (Raise e, s1, evs1)
    end.
Proof.
  unfold save, bind at 1.
  destruct (get_blob_service_client w s) as [[[service|e] s1] evs1]; [|done].
  unfold upload_blob, get_blob_client, get_container_client, target_blob.
  unfold_monad. simpl.
  destruct (get_container_client_outcome w service container_name); [done|].
  simpl. destruct (get_blob_client_outcome w _ _); [done|].
  simpl. by destruct (upload_blob_outcome w _ data).
Qed.

(** The handler once the configuration is read and the secret resolved. *)
Lemma http_trigger_eq (req : HttpRequest) (w : World) (s : State)
    (api container : string) (key : option string) (s1 : State)
    (evs1 : list event) :
  environ w !! "API_URL" = Some api →
  environ w !! "ADLS_FILE_SYSTEM" = Some container →
  get_secret "api-key" w s = (Ok key, s1, evs1) →
  http_trigger req w s =
    match fetch (api +:+ "/flights?key=" +:+ format_value key) w s1 with
    | (Ok (Continue data), s2, evs2) =>
        match save_or_500 container
                (default "flights" (environ w !! "ADLS_PATH_PREFIX")) data w s2 with
        | (r, s3, evs3) => (r, s3, evs1 ++ evs2 ++ evs3)
        end
    | (Ok (Return response), s2, evs2) => (Ok response, s2, evs1 ++ evs2)
    | (Raise e, s2, evs2) => (Raise e, s2, evs1 ++ evs2)
    end.
Proof.
  intros Hapi Hc Hkey. rewrite <- endpoint_url_eq.
  unfold http_trigger.
  rewrite (bind_Ok _ _ _ _ _ _ _ (load_config_Continue _ _ _ _ Hapi Hc)).
  rewrite (bind_Ok _ _ _ _ _ _ _ Hkey). cbn [app].
  unfold bind at 1.
  destruct (fetch _ w s1) as [[[[data|response]|e] s2] evs2]; try done.
  - fold (save_or_500 container
            (default "flights" (environ w !! "ADLS_PATH_PREFIX")) data).
    by destruct (save_or_500 _ _ _ w s2) as [[r s3] evs3].
  - unfold ret. by rewrite app_nil_r.
Qed.

(** The last [try] always answers: 200 when the stage returned, 500 with
    the text of the error when it raised. *)
Lemma save_or_500_eq (container_name path_prefix data : string) (w : World)
    (s : State) :
  save_or_500 container_name path_prefix data w s =
    match save container_name path_prefix data w s with
    | (Ok response, s1, evs1) => (Ok response, s1, evs1)
    | (Raise e, s1, evs1) =>
        (Ok {| body := "Failed to save data to storage: " +:+ str e;
               status_code := 500 |}, s1, evs1)
    end.
Proof.
  unfold save_or_500, try_except.
  destruct (save _ _ _ w s) as [[[response|e] s1] evs1]; [done|].
  simpl. unfold ret. by rewrite app_nil_r.
Qed.

Lemma is_success_true (r : Response) :
  200 ≤ http_status r ≤ 299 → is_success r = true.
Proof. unfold is_success. lia. Qed.

Lemma is_success_false (r : Response) :
  ¬ 200 ≤ http_status r ≤ 299 → is_success r = false.
Proof. unfold is_success. lia. Qed.

(** The storage stage raises exactly in the four listed ways. *)
Lemma save_Raise (container_name path_prefix data : string) (w : World)
    (s : State) (e : exn) :
  storage_raises w s container_name path_prefix data e →
  ∃ s1 evs1, save container_name path_prefix data w s = (Raise e, s1, evs1).
Proof.
  intros H. rewrite save_eq.
  destruct H as [s1 evs1 H1|service s1 evs1 H1 H2|service s1 evs1 H1 H2 H3
                |service s1 evs1 H1 H2 H3 H4]; rewrite H1; simpl.
  - eauto.
  - rewrite H2. eauto.
  - rewrite H2, H3. eauto.
  - rewrite H2, H3, H4. eauto.
Qed.


(** No upload among events that are not outbound, or not of the storage
    stage. *)
Lemma filter_upload_nil (evs : list event) :
  Forall (λ ev, is_upload ev = false) evs → List.filter is_upload evs = [].
Proof.
  induction 1 as [|ev evs Hev _ IH]; [done|]. simpl. by rewrite Hev.
Qed.

Lemma filter_http_get_nil (evs : list event) :
  Forall (λ ev, is_http_get ev = false) evs → List.filter is_http_get evs = [].
Proof.
  induction 1 as [|ev evs Hev _ IH]; [done|]. simpl. by rewrite Hev.
Qed.

(** *** [rstrip] *)

Lemma rstrip_cons (c a : ascii) (s : string) :
  rstrip c (String a s) =
    match rstrip c s with
    | EmptyString => if Ascii.eqb a c then EmptyString else String a EmptyString
    | r => String a r
    end.
Proof. reflexivity. Qed.

(** Only trailing occurrences of the character are removed. *)
Lemma rstrip_repeated (c : ascii) (s : string) :
  ∃ n, s = rstrip c s +:+ repeated c n.
Proof.
  induction s as [|a s [n IH]]; [by exists 0%nat|].
  rewrite rstrip_cons. destruct (rstrip c s) as [|b r] eqn:Hr.
  - destruct (Ascii.eqb_spec a c) as [->|Hne].
    + exists (S n). by rewrite IH at 1.
    + exists n. by rewrite IH at 1.
  - exists n. rewrite append_cons. by rewrite <- IH.
Qed.

(** None is left at the end. *)
Lemma rstrip_no_trailing (c : ascii) (s q : string) :
  rstrip c s ≠ q +:+ String c "".
Proof.
  revert q. induction s as [|a s IH]; intros q.
  - by destruct q.
  - rewrite rstrip_cons. destruct (rstrip c s) as [|b r] eqn:Hr.
    + destruct (Ascii.eqb_spec a c) as [->|Hne].
      * by destruct q.
      * destruct q as [|x q]; [by intros [= ?]|].
        rewrite append_cons. intros [= _ H]. by destruct q.
    + destruct q as [|x q]; [by intros [= ? ?]|].
      rewrite append_cons. intros [= _ H]. by apply (IH q).
Qed.

(** So the name of the blob has no double slash before the timestamp. *)
Lemma blob_name_of_no_double_slash (path_prefix timestamp q : string) :
  blob_name_of path_prefix timestamp ≠ q +:+ "//" +:+ timestamp +:+ ".json".
Proof.
  unfold blob_name_of. intros H.
  change (q +:+ "//" +:+ timestamp +:+ ".json")
    with (q +:+ "/" +:+ "/" +:+ timestamp +:+ ".json") in H.
  rewrite <- (append_assoc q "/") in H.
  rewrite <- (append_assoc (rstrip _ _)), <- (append_assoc (q +:+ "/")) in H.
  rewrite <- (append_assoc (rstrip _ _ +:+ "/")) in H.
  rewrite <- (append_assoc ((q +:+ "/") +:+ "/")) in H.
  apply append_inv_tail, append_inv_tail, append_inv_tail in H.
  by apply rstrip_no_trailing in H.
Qed.

(** *** What the handler writes *)

(** Every upload of the storage stage goes to the target blob. *)
Lemma save_upload_inv (container_name path_prefix data : string) (w : World)
    (s : State) (c b d : string) :
  UploadBlob c b d ∈ (save_or_500 container_name path_prefix data w s).2 →
  c = container_name ∧ b = target_blob w path_prefix ∧ d = data.
Proof.
  rewrite save_or_500_eq, save_eq.
  pose proof (get_blob_service_client_events w s) as Hevs.
  destruct (get_blob_service_client w s) as [[[service|e] s1] evs1];
    simpl in Hevs.
  - assert (UploadBlob c b d ∉ evs1) as Hnot.
    { intros Hin. by apply (proj1 (Forall_forall _ _) Hevs) in Hin. }
    simpl.
    destruct (get_container_client_outcome w service container_name);
      [|destruct (get_blob_client_outcome w _ _);
        [|destruct (upload_blob_outcome w _ data)]];
      simpl; rewrite elem_of_app; (intros [?|Hin]; [done|]);
      repeat (apply elem_of_cons in Hin as [Hin|Hin]; [by simplify_eq|]);
      by apply elem_of_nil in Hin.
  - simpl. intros Hin. by apply (proj1 (Forall_forall _ _) Hevs) in Hin.
Qed.

(** Every upload of the handler goes to the target blob. *)
Lemma http_trigger_upload_inv (req : HttpRequest) (w : World) (s : State)
    (c b d : string) :
  UploadBlob c b d ∈ (http_trigger req w s).2 →
  b = target_blob w (default "flights" (environ w !! "ADLS_PATH_PREFIX")).
Proof.
  destruct (environ w !! "API_URL") as [api|] eqn:Hapi;
    [destruct (environ w !! "ADLS_FILE_SYSTEM") as [container|] eqn:Hc|].
  - destruct (get_secret_Ok "api-key" w s) as (key & s1 & evs1 & Hkey).
    pose proof (get_secret_events "api-key" w s) as Hevs1.
    rewrite Hkey in Hevs1. simpl in Hevs1.
    assert (UploadBlob c b d ∉ evs1) as Hnot.
    { intros Hin. apply (proj1 (Forall_forall _ _) Hevs1) in Hin. by destruct Hin. }
    rewrite (http_trigger_eq _ _ _ _ _ _ _ _ Hapi Hc Hkey), fetch_eq.
    assert (UploadBlob c b d
              ∉ evs1 ++ [HttpGet (api +:+ "/flights?key=" +:+ format_value key)])
      as Hstop.
    { rewrite elem_of_app, list_elem_of_singleton. by intros [?|?]. }
    destruct (Client_get w _) as [r|e].
    + destruct (is_success r); [|done].
      pose proof (save_upload_inv container
                    (default "flights" (environ w !! "ADLS_PATH_PREFIX"))
                    (text r) w s1 c b d) as Hsave.
      destruct (save_or_500 _ _ _ w s1) as [[r3 s3] evs3]. simpl in *.
      rewrite elem_of_app, elem_of_cons. intros [?|[?|Hin]]; [done..|].
      by apply Hsave.
    + destruct (is_HTTPError e); [done|]. simpl. rewrite elem_of_app.
      intros [?|Hin]; [done|].
      by apply (proj1 (Forall_forall _ _) (fetch_trace_events w _)) in Hin.
  - rewrite http_trigger_missing by auto. simpl. by intros ?%elem_of_nil.
  - rewrite http_trigger_missing by auto. simpl. by intros ?%elem_of_nil.
Qed.

(** The last [try] answers 200 or 500. *)
Lemma save_or_500_status (container_name path_prefix data : string) (w : World)
    (s : State) :
  ∃ response s' evs,
    save_or_500 container_name path_prefix data w s = (Ok response, s', evs) ∧
    (status_code response = 200 ∨ status_code response = 500).
Proof.
  rewrite save_or_500_eq, save_eq.
  destruct (get_blob_service_client w s) as [[[service|e] s1] evs1]; simpl;
    [|by eauto 6].
  destruct (get_container_client_outcome w service container_name);
    [by eauto 6|].
  destruct (get_blob_client_outcome w _ _); [by eauto 6|].
  destruct (upload_blob_outcome w _ data); by eauto 6.
Qed.

(** *** Once a credential is cached *)

(** No entry point replaces a cached credential or runs the constructor
    again, and [get_credential] hands out the cached instance. *)
Lemma run_call_keeps (c : Credential) (call : entry_point) (w : World)
    (s : State) :
  has_credential c s →
  ∃ s' evs,
    run_call call w s
      = (if is_call_get_credential (w, call) then [Ok c] else [], s', evs) ∧
    has_credential c s' ∧
    List.filter is_new_credential evs = [].
Proof.
  intros Hs.
  assert (∀ c' s0, has_credential c s0 →
                   has_credential c (store_secret_client c' s0)) as Hstore
    by done.
  assert (∀ A (m : M A),
            maintains (has_credential c) (λ ev, is_new_credential ev = false) m →
            ∃ s' evs, discard (m w s) = ([], s', evs) ∧ has_credential c s' ∧
                      List.filter is_new_credential evs = []) as Hdiscard.
  { intros A m Hm. destruct (Hm w s Hs) as [Hs' Hevs].
    destruct (m w s) as [[r s'] evs]. simpl in *.
    exists s', evs. split; [done|]. split; [done|].
    clear -Hevs. induction Hevs as [|ev evs Hev _ IH]; [done|].
    simpl. by rewrite Hev. }
  destruct call as [| |secret_name| |req]; simpl.
  - rewrite get_credential_eq, Hs. by exists s, [].
  - apply Hdiscard, maintains_get_secret_client; auto using get_credential_keeps.
  - apply Hdiscard, maintains_get_secret; auto using get_credential_keeps.
  - apply Hdiscard, maintains_get_blob_service_client;
      auto using get_credential_keeps.
  - apply Hdiscard, maintains_http_trigger; auto using get_credential_keeps.
Qed.

Lemma run_keeps (c : Credential) (calls : list (World * entry_point))
    (s : State) :
  has_credential c s →
  ∃ s' evs,
    run calls s
      = (replicate (length (List.filter is_call_get_credential calls)) (Ok c),
         s', evs) ∧
    List.filter is_new_credential evs = [].
Proof.
  revert s. induction calls as [|[w call] calls IH]; intros s Hs.
  - by exists s, [].
  - destruct (run_call_keeps c call w s Hs) as (s1 & evs1 & Hcall & Hs1 & Hevs1).
    destruct (IH s1 Hs1) as (s2 & evs2 & Hrun & Hevs2).
    simpl. rewrite Hcall, Hrun. do 2 eexists. split.
    + f_equal. f_equal. by destruct call.
    + by rewrite List.filter_app, Hevs1, Hevs2.
Qed.

(** *** The timestamp *)

Lemma length_zero_padded (width n : nat) :
  String.length (zero_padded width n) = width.
Proof.
  revert n. induction width as [|width IH]; intros n; [done|].
  simpl. rewrite length_append, IH. simpl. lia.
Qed.

(** [YYYYMMDDTHHMMSSZ]: sixteen characters, whatever the clock shows. *)
Lemma length_strftime (dt : datetime) : String.length (strftime dt) = 16%nat.
Proof.
  unfold strftime. by rewrite !length_append, !length_zero_padded.
Qed.

(** *** The scenarios, run *)

(** [test_http_trigger_success]: the GET, the blob and the response of the
    concrete scenario. *)
Example test_http_trigger_success :
  http_trigger request success_world initial_state
    = (Ok {| body := "Data saved successfully to "
                       +:+ "test-container/flights/20231110T120000Z.json";
             status_code := 200 |},
       resolved_state,
       resolved_events
         ++ [HttpGet "https://api.example.com/flights?key=test-api-key";
             NewBlobServiceClient "https://teststorage.blob.core.windows.net";
             ContainerHandle "test-container";
             BlobHandle "test-container" "flights/20231110T120000Z.json";
             UploadBlob "test-container" "flights/20231110T120000Z.json"
               payload]).
Proof. reflexivity. Qed.

(** A 404 from the API: 502, and the GET is the last call. *)
Example test_http_trigger_not_found :
  http_trigger request not_found_world initial_state
    = (Ok bad_gateway, resolved_state,
       resolved_events
         ++ [HttpGet "https://api.example.com/flights?key=test-api-key"]).
Proof. reflexivity. Qed.

(** [test_http_trigger_blob_upload_fails] *)
Example test_http_trigger_blob_upload_fails :
  (http_trigger request upload_fails_world initial_state).1.1
    = Ok {| body := "Failed to save data to storage: Storage error";
            status_code := 500 |}.
Proof. reflexivity. Qed.

(** A malformed proxy variable: the client is not built, the error is not
    an [HTTPError] and leaves the handler before any GET. *)
Example test_http_trigger_bad_proxy :
  http_trigger request bad_proxy_world initial_state
    = (Raise (OtherError "Unknown scheme for proxy URL"),
       resolved_state, resolved_events).
Proof. reflexivity. Qed.

(** [test_get_credential_is_cached] *)
Example test_get_credential_is_cached :
  run [(success_world, call_get_credential);
       (success_world, call_get_credential)] initial_state
    = ([Ok {| cred_id := 0 |}; Ok {| cred_id := 0 |}],
       {| credential_cache := Some {| cred_id := 0 |};
          secret_client_cache := None;
          next_id := 1 |},
       [NewCredential]).
Proof. reflexivity. Qed.

(** *** The secret resolver *)

(** C3. [get_secret] never raises, whatever the secret store does: it
    returns the value of the secret when the client is obtained and the
    lookup returns, and the absent value when the lookup raises (not found,
    network, permission) or when the client cannot be constructed. *)
Theorem get_secret_never_raises (secret_name : string) (w : World) (s : State) :
  ∃ v s' evs,
    get_secret secret_name w s = (Ok v, s', evs) ∧
    match get_secret_client w s with
    | (Ok client, _, _) =>
        match SecretClient_get_secret w client secret_name with
        | Ok value => v = value
        | Raise _ => v = None
        end
    | (Raise _, _, _) => v = None
    end.
Proof.
  rewrite get_secret_eq.
  destruct (get_secret_client w s) as [[[client|e] s1] evs1].
  - do 3 eexists. split; [reflexivity|].
    by destruct (SecretClient_get_secret w client secret_name).
  - by do 3 eexists.
Qed.

(** C4, as the code has it. With [KEY_VAULT_URL] missing and no client
    cached, [get_secret_client] raises [KeyError] to its caller before
    anything is constructed; when [get_secret] is that caller, its blanket
    [except Exception] recovers the error and the resolver returns the
    absent value. *)
Theorem get_secret_client_fails_loudly (secret_name : string) (w : World)
    (s : State) :
  environ w !! "KEY_VAULT_URL" = None →
  secret_client_cache s = None →
  get_secret_client w s = (Raise (KeyError "KEY_VAULT_URL"), s, []) ∧
  get_secret secret_name w s = (Ok None, s, []).
Proof.
  intros He Hc. split; [by apply get_secret_client_KeyError|].
  by rewrite get_secret_eq, get_secret_client_KeyError.
Qed.

Lemma get_secret_client_fails_loudly_witness :
  environ (healthy ∅) !! "KEY_VAULT_URL" = None ∧
  secret_client_cache initial_state = None ∧
  get_secret_client (healthy ∅) initial_state
    = (Raise (KeyError "KEY_VAULT_URL"), initial_state, []) ∧
  get_secret "api-key" (healthy ∅) initial_state = (Ok None, initial_state, []).
Proof.
  split; [reflexivity|]. split; [reflexivity|].
  apply (get_secret_client_fails_loudly "api-key" (healthy ∅) initial_state);
    reflexivity.
Defined.

(** C4 as worded would have [get_secret] let the [KeyError] through. On an
    empty environment the client construction raises and [get_secret]
    returns all the same. *)
Lemma get_secret_recovers_missing_url :
  environ (healthy ∅) !! "KEY_VAULT_URL" = None ∧
  get_secret_client (healthy ∅) initial_state
    = (Raise (KeyError "KEY_VAULT_URL"), initial_state, []) ∧
  get_secret "api-key" (healthy ∅) initial_state = (Ok None, initial_state, []) ∧
  ¬ (∃ e s' evs,
       get_secret "api-key" (healthy ∅) initial_state = (Raise e, s', evs)).
Proof.
  repeat split; try reflexivity.
  intros (e & s' & evs & H). vm_compute in H. discriminate H.
Qed.

(** *** The handler, stage by stage *)

(** C5. If [API_URL] or [ADLS_FILE_SYSTEM] is missing, the handler answers
    500, the body carries the name of a missing key as [KeyError] prints
    it, the process state is untouched and no call at all has left the
    process: no secret lookup, no GET, no storage write. *)
Theorem missing_config_is_500 (req : HttpRequest) (w : World) (s : State) :
  environ w !! "API_URL" = None ∨ environ w !! "ADLS_FILE_SYSTEM" = None →
  ∃ key,
    (key = "API_URL" ∨ key = "ADLS_FILE_SYSTEM") ∧
    environ w !! key = None ∧
    http_trigger req w s
      = (Ok {| body := "Configuration error: Missing '" +:+ key +:+ "'";
               status_code := 500 |}, s, []).
Proof.
  intros Hmissing. exists (first_missing w).
  split; [|split; [|by apply http_trigger_missing]]; unfold first_missing.
  - destruct (environ w !! "API_URL"); auto.
  - destruct (environ w !! "API_URL") eqn:Hapi; [|done].
    by destruct Hmissing.
Qed.

Lemma missing_config_is_500_witness :
  (environ (healthy ∅) !! "API_URL" = None
   ∨ environ (healthy ∅) !! "ADLS_FILE_SYSTEM" = None) ∧
  ∃ key,
    (key = "API_URL" ∨ key = "ADLS_FILE_SYSTEM") ∧
    environ (healthy ∅) !! key = None ∧
    http_trigger request (healthy ∅) initial_state
      = (Ok {| body := "Configuration error: Missing '" +:+ key +:+ "'";
               status_code := 500 |}, initial_state, []).
Proof.
  split; [left; reflexivity|].
  apply (missing_config_is_500 request (healthy ∅) initial_state).
  left; reflexivity.
Defined.

(** C6. With the configuration read and the secret resolved to [key]
    (absent or not), if the GET raises an [httpx.HTTPError] (a transport
    error) or returns a status outside 200-299, the handler answers 502
    with the fixed body; the GET is its last call and no call of the
    storage stage is made. *)
Theorem fetch_failure_is_502 (req : HttpRequest) (w : World) (s : State)
    (api container : string) (key : option string) (s1 : State)
    (evs1 : list event) :
  environ w !! "API_URL" = Some api →
  environ w !! "ADLS_FILE_SYSTEM" = Some container →
  get_secret "api-key" w s = (Ok key, s1, evs1) →
  (∃ e, Client_get w (api +:+ "/flights?key=" +:+ format_value key) = Raise e
        ∧ is_HTTPError e = true)
  ∨ (∃ r, Client_get w (api +:+ "/flights?key=" +:+ format_value key) = Ok r
          ∧ ¬ 200 ≤ http_status r ≤ 299) →
  http_trigger req w s
    = (Ok {| body := "Failed to fetch data from endpoint"; status_code := 502 |},
       s1, evs1 ++ [HttpGet (api +:+ "/flights?key=" +:+ format_value key)])
  ∧ Forall (λ ev, is_storage ev = false)
      (evs1 ++ [HttpGet (api +:+ "/flights?key=" +:+ format_value key)]).
Proof.
  intros Hapi Hc Hkey Hfail. split.
  - rewrite (http_trigger_eq _ _ _ _ _ _ _ _ Hapi Hc Hkey), fetch_eq.
    destruct Hfail as [(e & -> & ->)|(r & -> & Hr)]; [done|].
    by rewrite (is_success_false _ Hr).
  - apply Forall_app. split; [|by repeat constructor].
    pose proof (get_secret_events "api-key" w s) as Hevs.
    rewrite Hkey in Hevs. simpl in Hevs.
    eapply Forall_impl; [exact Hevs|]. by intros ev [? _].
Qed.

Lemma fetch_failure_is_502_witness :
  http_trigger request unreachable_world initial_state
    = (Ok {| body := "Failed to fetch data from endpoint"; status_code := 502 |},
       resolved_state,
       resolved_events
         ++ [HttpGet ("https://api.example.com" +:+ "/flights?key="
                        +:+ format_value (Some "test-api-key"))])
  ∧ Forall (λ ev, is_storage ev = false)
      (resolved_events
         ++ [HttpGet ("https://api.example.com" +:+ "/flights?key="
                        +:+ format_value (Some "test-api-key"))]).
Proof.
  apply (fetch_failure_is_502 request unreachable_world initial_state
           "https://api.example.com" "test-container" (Some "test-api-key")
           resolved_state resolved_events).
  - reflexivity.
  - reflexivity.
  - reflexivity.
  - left. exists (HTTPError "Connection failed"). split; reflexivity.
Defined.

(** C7. With the payload fetched, if the storage stage raises [e] at any
    of its calls, the handler answers 500 and the body is the fixed text
    followed by [str(e)]. *)
Theorem storage_failure_is_500 (req : HttpRequest) (w : World) (s : State)
    (api container : string) (key : option string) (s1 : State)
    (evs1 : list event) (r : Response) (e : exn) :
  environ w !! "API_URL" = Some api →
  environ w !! "ADLS_FILE_SYSTEM" = Some container →
  get_secret "api-key" w s = (Ok key, s1, evs1) →
  Client_get w (api +:+ "/flights?key=" +:+ format_value key) = Ok r →
  200 ≤ http_status r ≤ 299 →
  storage_raises w s1 container
    (default "flights" (environ w !! "ADLS_PATH_PREFIX")) (text r) e →
  ∃ s2 evs,
    http_trigger req w s
      = (Ok {| body := "Failed to save data to storage: " +:+ str e;
               status_code := 500 |}, s2, evs).
Proof.
  intros Hapi Hc Hkey Hget Hr Hraise.
  rewrite (http_trigger_eq _ _ _ _ _ _ _ _ Hapi Hc Hkey), fetch_eq, Hget.
  rewrite (is_success_true _ Hr), save_or_500_eq.
  destruct (save_Raise _ _ _ _ _ _ Hraise) as (s2 & evs2 & ->). eauto.
Qed.

Lemma storage_failure_is_500_witness :
  ∃ s2 evs,
    http_trigger request upload_fails_world initial_state
      = (Ok {| body := "Failed to save data to storage: "
                         +:+ str (OtherError "Storage error");
               status_code := 500 |}, s2, evs).
Proof.
  apply (storage_failure_is_500 request upload_fails_world initial_state
           "https://api.example.com" "test-container" (Some "test-api-key")
           resolved_state resolved_events
           {| http_status := 200; text := payload |}).
  - reflexivity.
  - reflexivity.
  - reflexivity.
  - reflexivity.
  - simpl. lia.
  - eapply upload_raises; reflexivity.
Defined.

(** C1, as the code has it. With both required keys set, the secret
    resolved to [key], a 2xx answer to the GET and every call of the
    storage stage returning, the handler answers 200 and makes exactly one
    upload, to the blob [{prefix}/{timestamp}.json] of the container, where
    the timestamp is the clock formatted by [strftime] and the prefix is
    [ADLS_PATH_PREFIX], [flights] when unset, without its trailing
    slashes. *)
Theorem success_is_200 (req : HttpRequest) (w : World) (s : State)
    (api container : string) (key : option string) (s1 : State)
    (evs1 : list event) (r : Response) :
  environ w !! "API_URL" = Some api →
  environ w !! "ADLS_FILE_SYSTEM" = Some container →
  get_secret "api-key" w s = (Ok key, s1, evs1) →
  Client_get w (api +:+ "/flights?key=" +:+ format_value key) = Ok r →
  200 ≤ http_status r ≤ 299 →
  storage_returns w s1 container
    (default "flights" (environ w !! "ADLS_PATH_PREFIX")) (text r) →
  ∃ blob s2 evs,
    blob = rstrip "/" (default "flights" (environ w !! "ADLS_PATH_PREFIX"))
             +:+ "/" +:+ strftime (utc_now w) +:+ ".json" ∧
    http_trigger req w s
      = (Ok {| body := "Data saved successfully to "
                         +:+ container +:+ "/" +:+ blob;
               status_code := 200 |}, s2, evs) ∧
    List.filter is_upload evs = [UploadBlob container blob (text r)].
Proof.
  intros Hapi Hc Hkey Hget Hr (service & s2 & evs2 & Hsvc & H1 & H2 & H3).
  eexists. exists s2. eexists. split; [reflexivity|].
  rewrite (http_trigger_eq _ _ _ _ _ _ _ _ Hapi Hc Hkey), fetch_eq, Hget.
  rewrite (is_success_true _ Hr), save_or_500_eq, save_eq, Hsvc. simpl.
  rewrite H1, H2, H3. split; [reflexivity|].
  rewrite List.filter_app. simpl. rewrite List.filter_app. simpl.
  rewrite (filter_upload_nil evs1), (filter_upload_nil evs2); [done| |].
  - pose proof (get_blob_service_client_events w s1) as Hevs.
    rewrite Hsvc in Hevs. eapply Forall_impl; [exact Hevs|]. by intros [].
  - pose proof (get_secret_events "api-key" w s) as Hevs.
    rewrite Hkey in Hevs. eapply Forall_impl; [exact Hevs|].
    by intros [] [? ?].
Qed.

Lemma success_is_200_witness :
  ∃ blob s2 evs,
    blob = rstrip "/" "flights" +:+ "/" +:+ "20231110T120000Z" +:+ ".json" ∧
    http_trigger request success_world initial_state
      = (Ok {| body := "Data saved successfully to "
                         +:+ "test-container" +:+ "/" +:+ blob;
               status_code := 200 |}, s2, evs) ∧
    List.filter is_upload evs = [UploadBlob "test-container" blob payload].
Proof.
  apply (success_is_200 request success_world initial_state
           "https://api.example.com" "test-container" (Some "test-api-key")
           resolved_state resolved_events
           {| http_status := 200; text := payload |}).
  - reflexivity.
  - reflexivity.
  - reflexivity.
  - reflexivity.
  - simpl. lia.
  - eexists _, _, _. repeat split; reflexivity.
Defined.

(** C1 as worded takes the prefix as it stands in [ADLS_PATH_PREFIX]. With
    the prefix [flights/] the blob written is not
    [flights//20231110T120000Z.json]. *)
Lemma trailing_slash_is_not_kept :
  environ slash_world !! "ADLS_PATH_PREFIX" = Some "flights/" ∧
  strftime (utc_now slash_world) = "20231110T120000Z" ∧
  ∃ response s evs,
    http_trigger request slash_world initial_state = (Ok response, s, evs) ∧
    status_code response = 200 ∧
    List.filter is_upload evs
      = [UploadBlob "test-container" "flights/20231110T120000Z.json" payload] ∧
    List.filter is_upload evs
      ≠ [UploadBlob "test-container"
           ("flights/" +:+ "/" +:+ "20231110T120000Z" +:+ ".json") payload].
Proof.
  split; [reflexivity|]. split; [reflexivity|].
  eexists _, _, _. split; [vm_compute; reflexivity|].
  split; [reflexivity|]. split; [reflexivity|]. discriminate.
Qed.

(** With the configuration read, the GETs of the handler are those of the
    fetch stage: one, to the endpoint followed by the resolved key as the
    f-string writes it, or none when the client could not be built. *)
Lemma http_trigger_fetch_trace (req : HttpRequest) (w : World) (s : State)
    (api container : string) (key : option string) (s1 : State)
    (evs1 : list event) :
  environ w !! "API_URL" = Some api →
  environ w !! "ADLS_FILE_SYSTEM" = Some container →
  get_secret "api-key" w s = (Ok key, s1, evs1) →
  List.filter is_http_get (http_trigger req w s).2
    = fetch_trace w (api +:+ "/flights?key=" +:+ format_value key).
Proof.
  intros Hapi Hc Hkey.
  rewrite (http_trigger_eq _ _ _ _ _ _ _ _ Hapi Hc Hkey), fetch_eq.
  assert (List.filter is_http_get evs1 = []) as Hevs1.
  { apply filter_http_get_nil.
    pose proof (get_secret_events "api-key" w s) as Hevs.
    rewrite Hkey in Hevs. eapply Forall_impl; [exact Hevs|]. by intros ? [_ ?]. }
  destruct (Client_get w _) as [r|e] eqn:Hget.
  - unfold fetch_trace. rewrite (Client_get_Ok _ _ _ Hget).
    destruct (is_success r); simpl; [|by rewrite List.filter_app, Hevs1].
    pose proof (maintains_save_or_500 (λ _, True) (λ ev, is_http_get ev = false)
                  (get_credential_emits _ eq_refl) container
                  (default "flights" (environ w !! "ADLS_PATH_PREFIX")) (text r)
                  ltac:(by intros []) w s1 Logic.I) as [_ Hevs3].
    destruct (save_or_500 _ _ _ w s1) as [[r3 s3] evs3]. simpl in *.
    rewrite List.filter_app, Hevs1. simpl.
    by rewrite (filter_http_get_nil _ Hevs3).
  - destruct (is_HTTPError e) eqn:He; simpl.
    + unfold fetch_trace. rewrite (Client_get_HTTPError _ _ _ Hget He).
      by rewrite List.filter_app, Hevs1.
    + rewrite List.filter_app, Hevs1. simpl.
      unfold fetch_trace. by destruct (Client_init w).
Qed.

(** C2, as the code has it. When the secret resolves to the absent value
    the handler does not stop, and the f-string has written the absent
    value as the text [None]: provided the HTTP client of line 31 can be
    built, the handler makes exactly one GET, and it goes to
    [{API_URL}/flights?key=None]. *)
Theorem absent_secret_is_sent_as_None (req : HttpRequest) (w : World)
    (s : State) (api container : string) (s1 : State) (evs1 : list event) :
  environ w !! "API_URL" = Some api →
  environ w !! "ADLS_FILE_SYSTEM" = Some container →
  get_secret "api-key" w s = (Ok None, s1, evs1) →
  Client_init w = None →
  ∃ r s2 evs,
    http_trigger req w s = (r, s2, evs) ∧
    List.filter is_http_get evs = [HttpGet (api +:+ "/flights?key=None")].
Proof.
  intros Hapi Hc Hkey Hinit.
  pose proof (http_trigger_fetch_trace req _ _ _ _ _ _ _ Hapi Hc Hkey) as Hgets.
  unfold fetch_trace in Hgets. rewrite Hinit in Hgets.
  destruct (http_trigger req w s) as [[r s2] evs]. by eauto.
Qed.

Lemma absent_secret_is_sent_as_None_witness :
  ∃ r s2 evs,
    http_trigger request no_secret_world initial_state = (r, s2, evs) ∧
    List.filter is_http_get evs
      = [HttpGet ("https://api.example.com" +:+ "/flights?key=None")].
Proof.
  apply (absent_secret_is_sent_as_None request no_secret_world initial_state
           "https://api.example.com" "test-container"
           resolved_state resolved_events).
  - reflexivity.
  - reflexivity.
  - reflexivity.
  - reflexivity.
Defined.

(** C2 as worded has nothing after the equals sign. With the secret not
    found in the vault, the one GET goes to the URL ending in [key=None]. *)
Lemma absent_secret_is_not_empty :
  get_secret "api-key" no_secret_world initial_state
    = (Ok None, resolved_state, resolved_events) ∧
  ∃ r s evs,
    http_trigger request no_secret_world initial_state = (r, s, evs) ∧
    List.filter is_http_get evs
      = [HttpGet "https://api.example.com/flights?key=None"] ∧
    List.filter is_http_get evs
      ≠ [HttpGet ("https://api.example.com" +:+ "/flights?key=")].
Proof.
  split; [reflexivity|].
  eexists _, _, _. split; [vm_compute; reflexivity|].
  split; [reflexivity|]. discriminate.
Qed.




(** C10. Whatever [ADLS_PATH_PREFIX] holds, every blob the handler uploads
    to is named [{p}/{timestamp}.json], where [p] is the prefix with its
    trailing slashes removed: the prefix is [p] followed by slashes only,
    [p] does not end in a slash, and so the name never has two slashes
    before the timestamp. *)
Theorem blob_name_strips_trailing_slashes (req : HttpRequest) (w : World)
    (s : State) (container blob data : string) :
  UploadBlob container blob data ∈ (http_trigger req w s).2 →
  ∃ p n,
    default "flights" (environ w !! "ADLS_PATH_PREFIX") = p +:+ repeated "/" n ∧
    (∀ q, p ≠ q +:+ "/") ∧
    p = rstrip "/" (default "flights" (environ w !! "ADLS_PATH_PREFIX")) ∧
    blob = p +:+ "/" +:+ strftime (utc_now w) +:+ ".json" ∧
    (∀ q, blob ≠ q +:+ "//" +:+ strftime (utc_now w) +:+ ".json").
Proof.
  intros ->%http_trigger_upload_inv.
  destruct (rstrip_repeated "/" (default "flights" (environ w !! "ADLS_PATH_PREFIX")))
    as [n Hn].
  exists (rstrip "/" (default "flights" (environ w !! "ADLS_PATH_PREFIX"))), n.
  split; [done|]. split; [apply rstrip_no_trailing|]. split; [done|].
  split; [done|]. apply blob_name_of_no_double_slash.
Qed.

Lemma blob_name_strips_trailing_slashes_witness :
  UploadBlob "test-container" "flights/20231110T120000Z.json" payload
    ∈ (http_trigger request slash_world initial_state).2 ∧
  ∃ p n,
    "flights/" = p +:+ repeated "/" n ∧
    (∀ q, p ≠ q +:+ "/") ∧
    p = rstrip "/" "flights/" ∧
    "flights/20231110T120000Z.json" = p +:+ "/" +:+ "20231110T120000Z" +:+ ".json" ∧
    (∀ q, "flights/20231110T120000Z.json"
            ≠ q +:+ "//" +:+ "20231110T120000Z" +:+ ".json").
Proof.
  assert (UploadBlob "test-container" "flights/20231110T120000Z.json" payload
            ∈ (http_trigger request slash_world initial_state).2) as Hin.
  { vm_compute. do 7 apply list_elem_of_further. apply list_elem_of_here. }
  split; [exact Hin|].
  exact (blob_name_strips_trailing_slashes request slash_world initial_state
           "test-container" "flights/20231110T120000Z.json" payload Hin).
Defined.

(** *** The credential provider *)

(** C8. In a process whose credential cache is empty, let the first call
    be [get_credential] and let it construct the credential. Then whatever
    is called afterwards, in whatever world, every call of [get_credential]
    returns that same instance and the constructor has run exactly once. *)
Theorem get_credential_is_memoized (w0 : World)
    (rest : list (World * entry_point)) (s : State) :
  credential_cache s = None →
  DefaultAzureCredential_init w0 = None →
  ∃ s' evs,
    run ((w0, call_get_credential) :: rest) s
      = (replicate (S (length (List.filter is_call_get_credential rest)))
           (Ok {| cred_id := next_id s |}), s', evs) ∧
    List.filter is_new_credential evs = [NewCredential].
Proof.
  intros Hs Hinit. cbn [run run_call].
  rewrite get_credential_eq, Hs, Hinit.
  destruct (run_keeps {| cred_id := next_id s |} rest
              {| credential_cache := Some {| cred_id := next_id s |};
                 secret_client_cache := secret_client_cache s;
                 next_id := S (next_id s) |} eq_refl)
    as (s' & evs & -> & Hevs).
  exists s', ([NewCredential] ++ evs). split; [done|].
  simpl. by rewrite Hevs.
Qed.

Lemma get_credential_is_memoized_witness :
  ∃ s' evs,
    run [(success_world, call_get_credential);
         (success_world, call_http_trigger request);
         (healthy ∅, call_get_credential)] initial_state
      = ([Ok {| cred_id := 0 |}; Ok {| cred_id := 0 |}], s', evs) ∧
    List.filter is_new_credential evs = [NewCredential].
Proof.
  apply (get_credential_is_memoized success_world
           [(success_world, call_http_trigger request);
            (healthy ∅, call_get_credential)] initial_state);
    reflexivity.
Defined.

(** ** Further properties *)

(** *** key_vault.py, the remaining equations *)

(** [get_secret_client], case by case. *)
Lemma get_secret_client_eq (w : World) (s : State) :
  get_secret_client w s =
    match secret_client_cache s with
    | Some client => (Ok client, s, [])
    | None =>
        match environ w !! "KEY_VAULT_URL" with
        | None => (Raise (KeyError "KEY_VAULT_URL"), s, [])
        | Some key_vault_url =>
            match get_credential w s with
            | (Ok credential, s1, evs1) =>
                let client := {| vault_url := key_vault_url;
                                 sc_credential := credential |} in
                match SecretClient_init w key_vault_url credential with
                | Some e => (Raise e, s1, evs1 ++ [NewSecretClient key_vault_url])
                | None =>
                    (Ok client, store_secret_client client s1,
                     evs1 ++ [NewSecretClient key_vault_url])
                end
            | (Raise e, s1, evs1) => (Raise e, s1, evs1)
            end
        end
    end.
Proof.
  destruct (secret_client_cache s) as [client|] eqn:Hc;
    [by apply get_secret_client_cached|].
  destruct (environ w !! "KEY_VAULT_URL") as [key_vault_url|] eqn:He;
    [|by apply get_secret_client_KeyError].
  unfold get_secret_client, functools_cache.
  unfold bind at 1, get_state at 1. rewrite Hc.
  unfold bind at 1, bind at 1, environ_getitem at 1, bind at 1, ask at 1.
  rewrite He. unfold ret at 1. cbn [app]. unfold bind at 1.
  destruct (get_credential w s) as [[[credential|e] s1] evs1]; [|done].
  unfold_monad. simpl.
  destruct (SecretClient_init w key_vault_url credential); simpl;
    by rewrite ?app_nil_r.
Qed.

(** [get_blob_service_client], case by case: nothing is cached here. *)
Lemma get_blob_service_client_eq (w : World) (s : State) :
  get_blob_service_client w s =
    match environ w !! "STORAGE_ACCOUNT_NAME" with
    | None => (Raise (KeyError "STORAGE_ACCOUNT_NAME"), s, [])
    | Some name =>
        let storage_account_url :=
          "https://" +:+ name +:+ ".blob.core.windows.net" in
        match get_credential w s with
        | (Ok credential, s1, evs1) =>
            (match BlobServiceClient_init w storage_account_url credential with
             | Some e => Raise e
             | None => Ok {| account_url := storage_account_url;
                             bsc_credential := credential |}
             end, s1, evs1 ++ [NewBlobServiceClient storage_account_url])
        | (Raise e, s1, evs1) => (Raise e, s1, evs1)
        end
    end.
Proof.
  unfold get_blob_service_client.
  unfold bind at 1, environ_getitem at 1, bind at 1, ask at 1.
  destruct (environ w !! "STORAGE_ACCOUNT_NAME") as [name|]; [|done].
  unfold ret at 1. cbn [app]. unfold bind at 1.
  destruct (get_credential w s) as [[[credential|e] s1] evs1]; [|done].
  unfold_monad. simpl.
  by destruct (BlobServiceClient_init w _ credential).
Qed.

(** What [get_credential] returns is what the cache holds afterwards, and
    the other cache is not touched. *)
Lemma get_credential_Ok (w : World) (s : State) (c : Credential) s1 evs1 :
  get_credential w s = (Ok c, s1, evs1) →
  credential_cache s1 = Some c ∧
  secret_client_cache s1 = secret_client_cache s ∧
  (credential_cache s = Some c ∧ s1 = s ∧ evs1 = []
   ∨ credential_cache s = None ∧ evs1 = [NewCredential]).
Proof.
  rewrite get_credential_eq.
  destruct (credential_cache s) as [c'|] eqn:Hc.
  - intros [= <- <- <-]. split; [done|]. split; [done|]. by left.
  - destruct (DefaultAzureCredential_init w); [done|].
    intros [= <- <- <-]. simpl. split; [done|]. split; [done|]. by right.
Qed.

Lemma get_credential_Raise (w : World) (s : State) (e : exn) s1 evs1 :
  get_credential w s = (Raise e, s1, evs1) →
  s1 = s ∧ credential_cache s = None ∧ evs1 = [NewCredential] ∧
  DefaultAzureCredential_init w = Some e.
Proof.
  rewrite get_credential_eq.
  destruct (credential_cache s) as [c'|] eqn:Hc; [done|].
  destruct (DefaultAzureCredential_init w); [|done].
  by intros [= <- <- <-].
Qed.

(** *** Rules for the entry points *)

Section entry_point_rules.
Context (I : State → Prop) (P : event → Prop).
Hypothesis get_credential_ok : maintains I P get_credential.
Hypothesis get_secret_client_ok : maintains I P get_secret_client.
Hypothesis other_events_ok :
  ∀ ev, is_new_credential ev = false → is_new_secret_client ev = false → P ev.

Lemma get_secret_maintains (secret_name : string) :
  maintains I P (get_secret secret_name).
Proof.
  apply maintains_try_except; [|intros; apply maintains_ret].
  apply maintains_bind; [done|intros client].
  apply maintains_bind; [by apply maintains_call_result; auto|intros v].
  apply maintains_ret.
Qed.

Lemma get_blob_service_client_maintains :
  maintains I P get_blob_service_client.
Proof. apply maintains_get_blob_service_client; auto. Qed.

Lemma http_trigger_maintains (req : HttpRequest) :
  maintains I P (http_trigger req).
Proof.
  apply maintains_bind; [apply maintains_load_config|].
  intros [[[endpoint_url container_name] path_prefix]|response];
    [|apply maintains_ret].
  apply maintains_bind; [apply get_secret_maintains|intros key].
  apply maintains_bind; [by apply maintains_fetch; auto|].
  intros [data|response]; [|apply maintains_ret].
  apply (maintains_save_or_500 I P get_credential_ok container_name
           path_prefix data).
  intros [] ?; by auto.
Qed.

Lemma run_call_maintains (call : entry_point) (w : World) (s : State) :
  I s → I (run_call call w s).1.2 ∧ Forall P (run_call call w s).2.
Proof.
  intros Hs.
  assert (∀ A (m : M A), maintains I P m →
            I (discard (m w s)).1.2 ∧ Forall P (discard (m w s)).2) as Hdiscard.
  { intros A m Hm. destruct (Hm w s Hs) as [Hs' Hevs].
    by destruct (m w s) as [[r s'] evs]. }
  destruct call as [| |secret_name| |req]; simpl.
  - destruct (get_credential_ok w s Hs) as [Hs' Hevs].
    by destruct (get_credential w s) as [[r s'] evs].
  - by apply Hdiscard.
  - apply Hdiscard, get_secret_maintains.
  - apply Hdiscard, get_blob_service_client_maintains.
  - apply Hdiscard, http_trigger_maintains.
Qed.

Lemma run_maintains (calls : list (World * entry_point)) (s : State) :
  I s → I (run calls s).1.2 ∧ Forall P (run calls s).2.
Proof.
  revert s. induction calls as [|[w call] calls IH]; intros s Hs.
  - by split; [|constructor].
  - simpl. destruct (run_call_maintains call w s Hs) as [Hs1 Hevs1].
    destruct (run_call call w s) as [[rs1 s1] evs1]. simpl in *.
    destruct (IH s1 Hs1) as [Hs2 Hevs2].
    destruct (run calls s1) as [[rs2 s2] evs2]. simpl in *.
    split; [done|]. by apply Forall_app.
Qed.

End entry_point_rules.

(** The cached secret client stays and no second one is built. *)
Lemma get_credential_keeps_client (client : SecretClient) :
  maintains (has_secret_client client)
    (λ ev, is_new_secret_client ev = false) get_credential.
Proof.
  intros w s Hs. rewrite get_credential_eq.
  destruct (credential_cache s), (DefaultAzureCredential_init w); simpl;
    split; by repeat constructor.
Qed.

Lemma get_secret_client_keeps_client (client : SecretClient) :
  maintains (has_secret_client client)
    (λ ev, is_new_secret_client ev = false) get_secret_client.
Proof.
  intros w s Hs. rewrite (get_secret_client_cached w s client Hs). simpl.
  by split; [|constructor].
Qed.

Lemma get_secret_client_Ok (w : World) (s : State) (client : SecretClient)
    s1 evs1 :
  get_secret_client w s = (Ok client, s1, evs1) →
  has_secret_client client s1.
Proof.
  rewrite get_secret_client_eq.
  destruct (secret_client_cache s) as [client'|] eqn:Hc.
  { by intros [= <- <- _]. }
  destruct (environ w !! "KEY_VAULT_URL") as [key_vault_url|]; [|done].
  destruct (get_credential w s) as [[[credential|e] s'] evs']; [|done].
  destruct (SecretClient_init w key_vault_url credential); [done|].
  by intros [= <- <- _].
Qed.

(** Consistency of the two caches is an invariant. *)
Lemma get_credential_consistent :
  maintains consistent (λ _, True) get_credential.
Proof.
  intros w s Hs. split; [|by apply Forall_true].
  destruct (get_credential w s) as [[[c|e] s1] evs1] eqn:Hget; simpl.
  - apply get_credential_Ok in Hget as (Hc & Hsc & [(_ & -> & _)|(Hnone & _)]);
      [done|].
    intros client Hclient. rewrite Hsc in Hclient.
    apply Hs in Hclient. congruence.
  - by apply get_credential_Raise in Hget as (-> & _).
Qed.

Lemma get_secret_client_consistent :
  maintains consistent (λ _, True) get_secret_client.
Proof.
  intros w s Hs. split; [|by apply Forall_true].
  rewrite get_secret_client_eq.
  destruct (secret_client_cache s) as [client'|] eqn:Hc; [done|].
  destruct (environ w !! "KEY_VAULT_URL") as [key_vault_url|]; [|done].
  destruct (get_credential_consistent w s Hs) as [Hs1 _].
  destruct (get_credential w s) as [[[credential|e] s1] evs1] eqn:Hget;
    simpl in *; [|done].
  destruct (SecretClient_init w key_vault_url credential); simpl; [done|].
  apply get_credential_Ok in Hget as (Hcred & _).
  by intros client [= <-].
Qed.

(** *** The caches of key_vault.py *)

(** X1. Once [get_secret_client] has returned a client, whatever is called
    afterwards and in whatever world, no second secret client is built and
    [get_secret_client] returns that same client without reading
    [KEY_VAULT_URL] again, even where the variable is now missing or names
    another vault. *)
Theorem secret_client_is_memoized (w0 : World) (s0 : State)
    (client : SecretClient) (s : State) (evs0 : list event)
    (calls : list (World * entry_point)) (w : World) :
  get_secret_client w0 s0 = (Ok client, s, evs0) →
  List.filter is_new_secret_client (run calls s).2 = [] ∧
  get_secret_client w (run calls s).1.2 = (Ok client, (run calls s).1.2, []).
Proof.
  intros Hs%get_secret_client_Ok.
  destruct (run_maintains (has_secret_client client)
              (λ ev, is_new_secret_client ev = false)
              (get_credential_keeps_client client)
              (get_secret_client_keeps_client client)
              ltac:(done) calls s Hs) as [Hs' Hevs].
  split; [|by apply get_secret_client_cached].
  induction Hevs as [|ev evs Hev _ IH]; [done|]. simpl. by rewrite Hev.
Qed.

Lemma secret_client_is_memoized_witness :
  List.filter is_new_secret_client
    (run [(success_world, call_http_trigger request);
          (healthy ∅, call_get_secret "api-key")] resolved_state).2 = [] ∧
  get_secret_client (healthy ∅)
    (run [(success_world, call_http_trigger request);
          (healthy ∅, call_get_secret "api-key")] resolved_state).1.2
    = (Ok test_secret_client,
       (run [(success_world, call_http_trigger request);
             (healthy ∅, call_get_secret "api-key")] resolved_state).1.2, []).
Proof.
  apply (secret_client_is_memoized success_world initial_state
           test_secret_client resolved_state
           [NewCredential; NewSecretClient "https://test-vault.vault.azure.net/"]).
  reflexivity.
Defined.

(** X2. When the constructor of the secret client raises, the error
    reaches the caller and no client is cached, but the credential built on
    the way stays cached: a later call, in a world where the constructor
    returns, builds the client with that same credential and constructs no
    second credential. *)
Theorem failed_secret_client_is_retried (w : World) (s : State)
    (key_vault_url : string) (credential : Credential) (s1 : State)
    (evs1 : list event) (e : exn) (w' : World) (key_vault_url' : string) :
  secret_client_cache s = None →
  environ w !! "KEY_VAULT_URL" = Some key_vault_url →
  get_credential w s = (Ok credential, s1, evs1) →
  SecretClient_init w key_vault_url credential = Some e →
  environ w' !! "KEY_VAULT_URL" = Some key_vault_url' →
  SecretClient_init w' key_vault_url' credential = None →
  get_secret_client w s
    = (Raise e, s1, evs1 ++ [NewSecretClient key_vault_url]) ∧
  secret_client_cache s1 = None ∧
  get_secret_client w' s1
    = (Ok {| vault_url := key_vault_url'; sc_credential := credential |},
       store_secret_client
         {| vault_url := key_vault_url'; sc_credential := credential |} s1,
       [NewSecretClient key_vault_url']).
Proof.
  intros Hc He Hget Hinit He' Hinit'.
  pose proof (get_credential_Ok _ _ _ _ _ Hget) as (Hcred & Hsc & _).
  split; [|split].
  - by rewrite get_secret_client_eq, Hc, He, Hget, Hinit.
  - by rewrite Hsc.
  - rewrite get_secret_client_eq, Hsc, Hc, He', get_credential_eq, Hcred.
    by rewrite Hinit'.
Qed.

Lemma failed_secret_client_is_retried_witness :
  get_secret_client vault_down_world initial_state
    = (Raise (OtherError "Vault unreachable"), credential_state,
       [NewCredential] ++ [NewSecretClient "https://test-vault.vault.azure.net/"]) ∧
  secret_client_cache credential_state = None ∧
  get_secret_client success_world credential_state
    = (Ok test_secret_client,
       store_secret_client test_secret_client credential_state,
       [NewSecretClient "https://test-vault.vault.azure.net/"]).
Proof.
  apply (failed_secret_client_is_retried vault_down_world initial_state
           "https://test-vault.vault.azure.net/" {| cred_id := 0 |}
           credential_state [NewCredential] (OtherError "Vault unreachable")
           success_world "https://test-vault.vault.azure.net/");
    reflexivity.
Defined.

(** X3. [get_blob_service_client] is not cached: two calls that return
    have each run the constructor of the service client once, the second
    leaves the process state as it found it, and both clients hold the same
    credential. *)
Theorem blob_service_client_is_not_memoized (w1 w2 : World) (s : State)
    (b1 b2 : BlobServiceClient) (s1 s2 : State) (evs1 evs2 : list event) :
  get_blob_service_client w1 s = (Ok b1, s1, evs1) →
  get_blob_service_client w2 s1 = (Ok b2, s2, evs2) →
  List.filter is_new_blob_service_client evs1
    = [NewBlobServiceClient (account_url b1)] ∧
  evs2 = [NewBlobServiceClient (account_url b2)] ∧
  s2 = s1 ∧
  bsc_credential b2 = bsc_credential b1.
Proof.
  rewrite !get_blob_service_client_eq.
  destruct (environ w1 !! "STORAGE_ACCOUNT_NAME") as [name1|]; [|done].
  destruct (get_credential w1 s) as [[[c1|e1] s1'] evs1'] eqn:Hget1; [|done].
  simpl. destruct (BlobServiceClient_init w1 _ c1); [done|].
  intros [= <- <- <-].
  apply get_credential_Ok in Hget1 as (Hcred & _ & Hevs).
  destruct (environ w2 !! "STORAGE_ACCOUNT_NAME") as [name2|]; [|done].
  rewrite get_credential_eq, Hcred. simpl.
  destruct (BlobServiceClient_init w2 _ c1); [done|].
  intros [= <- <- <-]. split; [|done].
  rewrite List.filter_app. simpl.
  by destruct Hevs as [(_ & _ & ->)|(_ & ->)].
Qed.

Lemma blob_service_client_is_not_memoized_witness :
  List.filter is_new_blob_service_client
    [NewCredential;
     NewBlobServiceClient "https://teststorage.blob.core.windows.net"]
    = [NewBlobServiceClient (account_url test_blob_service_client)] ∧
  [NewBlobServiceClient "https://teststorage.blob.core.windows.net"]
    = [NewBlobServiceClient (account_url test_blob_service_client)] ∧
  credential_state = credential_state ∧
  bsc_credential test_blob_service_client
    = bsc_credential test_blob_service_client.
Proof.
  apply (blob_service_client_is_not_memoized success_world success_world
           initial_state test_blob_service_client test_blob_service_client
           credential_state credential_state);
    reflexivity.
Defined.

(** X4. When [get_blob_service_client] returns, [STORAGE_ACCOUNT_NAME] is
    set, the client is bound to
    [https://{STORAGE_ACCOUNT_NAME}.blob.core.windows.net], and its
    credential is the one the process holds in its cache afterwards. *)
Theorem blob_service_client_is_bound (w : World) (s : State)
    (service : BlobServiceClient) (s1 : State) (evs1 : list event) :
  get_blob_service_client w s = (Ok service, s1, evs1) →
  ∃ name,
    environ w !! "STORAGE_ACCOUNT_NAME" = Some name ∧
    account_url service = "https://" +:+ name +:+ ".blob.core.windows.net" ∧
    credential_cache s1 = Some (bsc_credential service).
Proof.
  rewrite get_blob_service_client_eq.
  destruct (environ w !! "STORAGE_ACCOUNT_NAME") as [name|]; [|done].
  destruct (get_credential w s) as [[[c|e] s'] evs'] eqn:Hget; [|done].
  simpl. destruct (BlobServiceClient_init w _ c); [done|].
  intros [= <- <- _]. exists name.
  by apply get_credential_Ok in Hget as (Hcred & _).
Qed.

Lemma blob_service_client_is_bound_witness :
  ∃ name,
    environ success_world !! "STORAGE_ACCOUNT_NAME" = Some name ∧
    account_url test_blob_service_client
      = "https://" +:+ name +:+ ".blob.core.windows.net" ∧
    credential_cache credential_state
      = Some (bsc_credential test_blob_service_client).
Proof.
  apply (blob_service_client_is_bound success_world initial_state
           test_blob_service_client credential_state
           [NewCredential;
            NewBlobServiceClient "https://teststorage.blob.core.windows.net"]).
  reflexivity.
Defined.

(** X5. In a process that started with empty caches, whatever has been
    called so far, the secret client and a blob service client obtained
    next hold one and the same credential. *)
Theorem clients_share_the_credential (calls : list (World * entry_point))
    (w1 w2 : World) (client : SecretClient) (service : BlobServiceClient)
    (s1 s2 : State) (evs1 evs2 : list event) :
  get_secret_client w1 (run calls initial_state).1.2 = (Ok client, s1, evs1) →
  get_blob_service_client w2 s1 = (Ok service, s2, evs2) →
  sc_credential client = bsc_credential service.
Proof.
  intros Hclient Hservice.
  assert (consistent initial_state) as Hinit by done.
  destruct (run_maintains consistent (λ _, True) get_credential_consistent
              get_secret_client_consistent ltac:(done) calls initial_state
              Hinit) as [Hs _].
  destruct (get_secret_client_consistent w1 _ Hs) as [Hs1 _].
  rewrite Hclient in Hs1. simpl in Hs1.
  apply get_secret_client_Ok in Hclient. apply Hs1 in Hclient.
  revert Hservice. rewrite get_blob_service_client_eq.
  destruct (environ w2 !! "STORAGE_ACCOUNT_NAME") as [name|]; [|done].
  rewrite get_credential_eq, Hclient. simpl.
  destruct (BlobServiceClient_init w2 _ _); [done|]. by intros [= <- _ _].
Qed.

Lemma clients_share_the_credential_witness :
  sc_credential test_secret_client = bsc_credential test_blob_service_client.
Proof.
  apply (clients_share_the_credential
           [(success_world, call_get_blob_service_client);
            (no_secret_world, call_http_trigger request)]
           success_world success_world test_secret_client
           test_blob_service_client resolved_state resolved_state
           []
           [NewBlobServiceClient "https://teststorage.blob.core.windows.net"]);
    reflexivity.
Defined.

(** X6. A construction of the credential that raises is not cached: as
    long as the constructor raises, every call of [get_credential] runs it
    again, raises, and leaves the process state untouched. *)
Theorem failed_credential_is_retried (calls : list (World * entry_point))
    (s : State) :
  credential_cache s = None →
  Forall (λ c, is_call_get_credential c = true
               ∧ DefaultAzureCredential_init c.1 ≠ None) calls →
  ∃ rs,
    run calls s = (rs, s, replicate (length calls) NewCredential) ∧
    length rs = length calls ∧
    Forall (λ r, ∃ e, r = Raise e) rs.
Proof.
  intros Hs Hcalls.
  induction Hcalls as [|[w call] calls [Hcall Hinit] _ (rs & IH & Hlen & Hrs)].
  - by exists [].
  - destruct call; try done. simpl in *.
    rewrite get_credential_eq, Hs.
    destruct (DefaultAzureCredential_init w) as [e|]; [|done].
    rewrite IH. exists (Raise e :: rs). split; [done|].
    split; [by rewrite <- Hlen|]. constructor; by eauto.
Qed.

Lemma failed_credential_is_retried_witness :
  ∃ rs,
    run [(no_identity_world, call_get_credential);
         (no_identity_world, call_get_credential)] initial_state
      = (rs, initial_state, [NewCredential; NewCredential]) ∧
    length rs = 2%nat ∧
    Forall (λ r, ∃ e, r = Raise e) rs.
Proof.
  apply (failed_credential_is_retried
           [(no_identity_world, call_get_credential);
            (no_identity_world, call_get_credential)] initial_state).
  - reflexivity.
  - repeat constructor; discriminate.
Defined.

(** X7. With a client cached, [get_secret] makes exactly one call, the
    lookup of the given name in the vault of the cached client, whatever
    the environment says, and leaves the process state as it is. *)
Theorem get_secret_uses_the_cached_client (secret_name : string) (w : World)
    (s : State) (client : SecretClient) :
  secret_client_cache s = Some client →
  ∃ v,
    get_secret secret_name w s
      = (Ok v, s, [SecretLookup (vault_url client) secret_name]) ∧
    match SecretClient_get_secret w client secret_name with
    | Ok value => v = value
    | Raise _ => v = None
    end.
Proof.
  intros Hc. rewrite get_secret_eq, (get_secret_client_cached w s client Hc).
  eexists. split; [reflexivity|].
  by destruct (SecretClient_get_secret w client secret_name).
Qed.

Lemma get_secret_uses_the_cached_client_witness :
  ∃ v,
    get_secret "api-key" (healthy ∅) resolved_state
      = (Ok v, resolved_state,
         [SecretLookup (vault_url test_secret_client) "api-key"]) ∧
    match SecretClient_get_secret (healthy ∅) test_secret_client "api-key" with
    | Ok value => v = value
    | Raise _ => v = None
    end.
Proof.
  apply (get_secret_uses_the_cached_client "api-key" (healthy ∅)
           resolved_state test_secret_client).
  reflexivity.
Defined.

(** *** Counting the calls of the handler *)

Lemma filter_nil (p : event → bool) (evs : list event) :
  Forall (λ ev, p ev = false) evs → List.filter p evs = [].
Proof.
  induction 1 as [|ev evs Hev _ IH]; [done|]. simpl. by rewrite Hev.
Qed.

(** [get_secret]: no GET, no upload, at most one lookup. *)
Lemma get_secret_counts (secret_name : string) (w : World) (s : State) :
  List.filter is_http_get (get_secret secret_name w s).2 = [] ∧
  List.filter is_upload (get_secret secret_name w s).2 = [] ∧
  (length (List.filter is_secret_lookup (get_secret secret_name w s).2) ≤ 1)%nat.
Proof.
  pose proof (get_secret_events secret_name w s) as Hevs.
  split; [|split].
  - apply filter_nil. eapply Forall_impl; [exact Hevs|]. by intros ? [_ ?].
  - apply filter_nil. eapply Forall_impl; [exact Hevs|]. by intros [] [? _].
  - rewrite get_secret_eq.
    pose proof (maintains_get_secret_client (λ _, True)
                  (λ ev, is_secret_lookup ev = false)
                  (get_credential_emits _ eq_refl) ltac:(done) ltac:(done)
                  w s Logic.I) as [_ Hclient].
    destruct (get_secret_client w s) as [[[client|e] s1] evs1]; simpl in *.
    + rewrite List.filter_app, (filter_nil _ _ Hclient). simpl. lia.
    + rewrite (filter_nil _ _ Hclient). simpl. lia.
Qed.

(** The last [try]: no lookup, no GET, at most one upload. *)
Lemma save_or_500_counts (container_name path_prefix data : string)
    (w : World) (s : State) :
  List.filter is_secret_lookup
    (save_or_500 container_name path_prefix data w s).2 = [] ∧
  List.filter is_http_get
    (save_or_500 container_name path_prefix data w s).2 = [] ∧
  (length (List.filter is_upload
             (save_or_500 container_name path_prefix data w s).2) ≤ 1)%nat.
Proof.
  split; [|split].
  - apply filter_nil.
    apply (maintains_save_or_500 (λ _, True) (λ ev, is_secret_lookup ev = false)
             (get_credential_emits _ eq_refl) container_name path_prefix data
             ltac:(by intros []) w s Logic.I).
  - apply filter_nil.
    apply (maintains_save_or_500 (λ _, True) (λ ev, is_http_get ev = false)
             (get_credential_emits _ eq_refl) container_name path_prefix data
             ltac:(by intros []) w s Logic.I).
  - rewrite save_or_500_eq, save_eq.
    pose proof (get_blob_service_client_events w s) as Hevs.
    assert (List.filter is_upload (get_blob_service_client w s).2 = []) as Hnil.
    { apply filter_nil. eapply Forall_impl; [exact Hevs|]. by intros []. }
    destruct (get_blob_service_client w s) as [[[service|e] s1] evs1];
      simpl in *; [|rewrite Hnil; simpl; lia].
    destruct (get_container_client_outcome w service container_name);
      [|destruct (get_blob_client_outcome w _ _);
        [|destruct (upload_blob_outcome w _ data)]];
      simpl; rewrite List.filter_app, Hnil; simpl; lia.
Qed.

(** *** The handler, read from its answer *)

(** X8. With the configuration read, the secret resolved to a value and
    the HTTP client of line 31 built, the handler makes exactly one GET, and
    the value stands in the URL as it came from the vault, unescaped:
    [{API_URL}/flights?key={value}]. *)
Theorem secret_is_sent_verbatim (req : HttpRequest) (w : World) (s : State)
    (api container value : string) (s1 : State) (evs1 : list event) :
  environ w !! "API_URL" = Some api →
  environ w !! "ADLS_FILE_SYSTEM" = Some container →
  get_secret "api-key" w s = (Ok (Some value), s1, evs1) →
  Client_init w = None →
  List.filter is_http_get (http_trigger req w s).2
    = [HttpGet (api +:+ "/flights?key=" +:+ value)].
Proof.
  intros Hapi Hc Hkey Hinit.
  rewrite (http_trigger_fetch_trace _ _ _ _ _ _ _ _ Hapi Hc Hkey).
  unfold fetch_trace. by rewrite Hinit.
Qed.

Lemma secret_is_sent_verbatim_witness :
  List.filter is_http_get
    (http_trigger request invalid_url_world initial_state).2
    = [HttpGet ("https://api.example.com" +:+ "/flights?key="
                  +:+ "test-api-key" +:+ newline)].
Proof.
  apply (secret_is_sent_verbatim request invalid_url_world initial_state
           "https://api.example.com" "test-container"
           ("test-api-key" +:+ newline) resolved_state resolved_events);
    reflexivity.
Defined.

(** X9. No stage is retried: in every invocation the handler makes at most
    one secret lookup and at most one GET, and never more uploads than
    GETs, so at most one upload and none without a GET. *)
Theorem one_call_per_stage (req : HttpRequest) (w : World) (s : State) :
  (length (List.filter is_secret_lookup (http_trigger req w s).2) ≤ 1)%nat ∧
  (length (List.filter is_http_get (http_trigger req w s).2) ≤ 1)%nat ∧
  (length (List.filter is_upload (http_trigger req w s).2)
   ≤ length (List.filter is_http_get (http_trigger req w s).2))%nat.
Proof.
  destruct (environ w !! "API_URL") as [api|] eqn:Hapi;
    [destruct (environ w !! "ADLS_FILE_SYSTEM") as [container|] eqn:Hc|].
  - destruct (get_secret_Ok "api-key" w s) as (key & s1 & evs1 & Hkey).
    rewrite (http_trigger_eq _ _ _ _ _ _ _ _ Hapi Hc Hkey), fetch_eq.
    destruct (get_secret_counts "api-key" w s) as (Hget1 & Hup1 & Hlook1).
    rewrite Hkey in Hget1, Hup1, Hlook1. simpl in Hget1, Hup1, Hlook1.
    assert (∀ tail,
              List.filter is_secret_lookup tail = [] →
              List.filter is_http_get tail = [] →
              (length (List.filter is_upload tail) ≤ 1)%nat →
              (length (List.filter is_secret_lookup
                         (evs1 ++ HttpGet (api +:+ "/flights?key="
                                             +:+ format_value key) :: tail))
               ≤ 1)%nat ∧
              (length (List.filter is_http_get
                         (evs1 ++ HttpGet (api +:+ "/flights?key="
                                             +:+ format_value key) :: tail))
               ≤ 1)%nat ∧
              (length (List.filter is_upload
                         (evs1 ++ HttpGet (api +:+ "/flights?key="
                                             +:+ format_value key) :: tail))
               ≤ length (List.filter is_http_get
                           (evs1 ++ HttpGet (api +:+ "/flights?key="
                                               +:+ format_value key) :: tail)))%nat)
      as Htail.
    { intros tail Hl Hg Hu. rewrite !List.filter_app. simpl.
      rewrite Hl, Hg, Hget1, Hup1, app_nil_r. simpl. lia. }
    destruct (Client_get w _) as [r|e].
    + destruct (is_success r).
      * destruct (save_or_500_counts container
                    (default "flights" (environ w !! "ADLS_PATH_PREFIX"))
                    (text r) w s1) as (Hl3 & Hg3 & Hu3).
        destruct (save_or_500 _ _ _ w s1) as [[r3 s3] evs3]. simpl in *.
        by apply Htail.
      * simpl. apply Htail; [done..|simpl; lia].
    + destruct (is_HTTPError e); simpl; [apply Htail; [done..|simpl; lia]|].
      unfold fetch_trace. destruct (Client_init w);
        [|apply Htail; [done..|simpl; lia]].
      rewrite app_nil_r, Hget1, Hup1. simpl. lia.
  - rewrite http_trigger_missing by auto. simpl. lia.
  - rewrite http_trigger_missing by auto. simpl. lia.
Qed.



(** X11. The handler answers 502 only for a failed fetch: the body is the
    fixed text, the GET is the last call of the invocation and it raised an
    [httpx.HTTPError] or returned a status outside 200-299, and no call of
    the storage stage was made. *)
Theorem status_502_means_fetch_failed (req : HttpRequest) (w : World)
    (s : State) (response : HttpResponse) (s' : State) (evs : list event) :
  http_trigger req w s = (Ok response, s', evs) →
  status_code response = 502 →
  body response = "Failed to fetch data from endpoint" ∧
  Forall (λ ev, is_storage ev = false) evs ∧
  ∃ pre target,
    evs = pre ++ [HttpGet target] ∧
    ((∃ e, Client_get w target = Raise e ∧ is_HTTPError e = true)
     ∨ (∃ r, Client_get w target = Ok r ∧ ¬ 200 ≤ http_status r ≤ 299)).
Proof.
  destruct (environ w !! "API_URL") as [api|] eqn:Hapi;
    [destruct (environ w !! "ADLS_FILE_SYSTEM") as [container|] eqn:Hc|].
  - destruct (get_secret_Ok "api-key" w s) as (key & s1 & evs1 & Hkey).
    pose proof (get_secret_events "api-key" w s) as Hevs1.
    rewrite Hkey in Hevs1. simpl in Hevs1.
    assert (Forall (λ ev, is_storage ev = false)
              (evs1 ++ [HttpGet (api +:+ "/flights?key=" +:+ format_value key)]))
      as Hall.
    { apply Forall_app. split; [|by repeat constructor].
      eapply Forall_impl; [exact Hevs1|]. by intros ? [? _]. }
    rewrite (http_trigger_eq _ _ _ _ _ _ _ _ Hapi Hc Hkey), fetch_eq.
    destruct (Client_get w _) as [r|e] eqn:Hget.
    + destruct (is_success r) eqn:Hr.
      * destruct (save_or_500_status container
                    (default "flights" (environ w !! "ADLS_PATH_PREFIX"))
                    (text r) w s1) as (r3 & s3 & evs3 & -> & Hstatus).
        intros [= <- _ _] ?. lia.
      * intros [= <- _ <-] _. split; [done|]. split; [done|].
        eexists _, _. split; [done|]. right. exists r. split; [done|].
        unfold is_success in Hr. lia.
    + destruct (is_HTTPError e) eqn:He; [|done].
      intros [= <- _ <-] _. split; [done|]. split; [done|].
      eexists _, _. split; [done|]. left. by exists e.
  - rewrite http_trigger_missing by auto. by intros [= <- _ _] ?.
  - rewrite http_trigger_missing by auto. by intros [= <- _ _] ?.
Qed.

Lemma status_502_means_fetch_failed_witness :
  body bad_gateway = "Failed to fetch data from endpoint" ∧
  Forall (λ ev, is_storage ev = false)
    (resolved_events
       ++ [HttpGet "https://api.example.com/flights?key=test-api-key"]) ∧
  ∃ pre target,
    resolved_events
      ++ [HttpGet "https://api.example.com/flights?key=test-api-key"]
      = pre ++ [HttpGet target] ∧
    ((∃ e, Client_get not_found_world target = Raise e ∧ is_HTTPError e = true)
     ∨ (∃ r, Client_get not_found_world target = Ok r
             ∧ ¬ 200 ≤ http_status r ≤ 299)).
Proof.
  apply (status_502_means_fetch_failed request not_found_world initial_state
           bad_gateway resolved_state);
    reflexivity.
Defined.



(** X13. A missing [STORAGE_ACCOUNT_NAME] is found late. With the two
    keys of the first stage set and a 2xx answer to the GET, the handler has
    resolved the secret and made the GET before it answers 500 with
    [Failed to save data to storage: 'STORAGE_ACCOUNT_NAME']; nothing of the
    storage stage was called, not even the constructor of the credential. *)
Theorem missing_storage_account_is_found_late (req : HttpRequest) (w : World)
    (s : State) (api container : string) (key : option string) (s1 : State)
    (evs1 : list event) (r : Response) :
  environ w !! "API_URL" = Some api →
  environ w !! "ADLS_FILE_SYSTEM" = Some container →
  get_secret "api-key" w s = (Ok key, s1, evs1) →
  Client_get w (api +:+ "/flights?key=" +:+ format_value key) = Ok r →
  200 ≤ http_status r ≤ 299 →
  environ w !! "STORAGE_ACCOUNT_NAME" = None →
  http_trigger req w s
    = (Ok {| body := "Failed to save data to storage: 'STORAGE_ACCOUNT_NAME'";
             status_code := 500 |},
       s1, evs1 ++ [HttpGet (api +:+ "/flights?key=" +:+ format_value key)]).
Proof.
  intros Hapi Hc Hkey Hget Hr Hname.
  rewrite (http_trigger_eq _ _ _ _ _ _ _ _ Hapi Hc Hkey), fetch_eq, Hget.
  rewrite (is_success_true _ Hr), save_or_500_eq, save_eq.
  rewrite get_blob_service_client_eq, Hname. simpl. by rewrite ?app_nil_r.
Qed.

Lemma missing_storage_account_is_found_late_witness :
  http_trigger request (healthy (delete "STORAGE_ACCOUNT_NAME" test_env))
      initial_state
    = (Ok {| body := "Failed to save data to storage: 'STORAGE_ACCOUNT_NAME'";
             status_code := 500 |},
       resolved_state,
       resolved_events
         ++ [HttpGet ("https://api.example.com" +:+ "/flights?key="
                        +:+ format_value (Some "test-api-key"))]).
Proof.
  apply (missing_storage_account_is_found_late request
           (healthy (delete "STORAGE_ACCOUNT_NAME" test_env)) initial_state
           "https://api.example.com" "test-container" (Some "test-api-key")
           resolved_state resolved_events
           {| http_status := 200; text := payload |});
    try reflexivity.
  simpl. lia.
Defined.

(** X14. A missing [KEY_VAULT_URL] stops nothing. With the two keys of the
    first stage set, no secret client cached and the HTTP client of line 31
    built, the handler makes no lookup in the vault; its first call is its
    one GET, to [{API_URL}/flights?key=None]. *)
Theorem missing_vault_url_is_not_reported (req : HttpRequest) (w : World)
    (s : State) (api container : string) :
  environ w !! "API_URL" = Some api →
  environ w !! "ADLS_FILE_SYSTEM" = Some container →
  environ w !! "KEY_VAULT_URL" = None →
  secret_client_cache s = None →
  Client_init w = None →
  List.filter is_secret_lookup (http_trigger req w s).2 = [] ∧
  List.filter is_http_get (http_trigger req w s).2
    = [HttpGet (api +:+ "/flights?key=None")] ∧
  ∃ tail, (http_trigger req w s).2 = HttpGet (api +:+ "/flights?key=None") :: tail.
Proof.
  intros Hapi Hc Hurl Hcache Hinit.
  assert (get_secret "api-key" w s = (Ok None, s, [])) as Hkey.
  { by rewrite get_secret_eq, get_secret_client_KeyError. }
  split; [|split].
  - rewrite (http_trigger_eq _ _ _ _ _ _ _ _ Hapi Hc Hkey), fetch_eq.
    unfold fetch_trace. rewrite Hinit.
    destruct (Client_get w _) as [r|e].
    + destruct (is_success r); [|done].
      destruct (save_or_500_counts container
                  (default "flights" (environ w !! "ADLS_PATH_PREFIX"))
                  (text r) w s) as (Hl3 & _).
      by destruct (save_or_500 _ _ _ w s) as [[r3 s3] evs3].
    + by destruct (is_HTTPError e).
  - rewrite (http_trigger_fetch_trace _ _ _ _ _ _ _ _ Hapi Hc Hkey).
    unfold fetch_trace. by rewrite Hinit.
  - rewrite (http_trigger_eq _ _ _ _ _ _ _ _ Hapi Hc Hkey), fetch_eq.
    unfold fetch_trace. rewrite Hinit.
    destruct (Client_get w _) as [r|e].
    + destruct (is_success r); [|by eexists].
      destruct (save_or_500 _ _ _ w s) as [[r3 s3] evs3]. by eexists.
    + destruct (is_HTTPError e); by eexists.
Qed.

Lemma missing_vault_url_is_not_reported_witness :
  List.filter is_secret_lookup
    (http_trigger request (healthy (delete "KEY_VAULT_URL" test_env))
       initial_state).2 = [] ∧
  List.filter is_http_get
    (http_trigger request (healthy (delete "KEY_VAULT_URL" test_env))
       initial_state).2
    = [HttpGet ("https://api.example.com" +:+ "/flights?key=None")] ∧
  ∃ tail,
    (http_trigger request (healthy (delete "KEY_VAULT_URL" test_env))
       initial_state).2
      = HttpGet ("https://api.example.com" +:+ "/flights?key=None") :: tail.
Proof.
  apply (missing_vault_url_is_not_reported request
           (healthy (delete "KEY_VAULT_URL" test_env)) initial_state
           "https://api.example.com" "test-container");
    reflexivity.
Defined.

(** *** The name of the blob *)

Lemma rstrip_repeated_nil (c : ascii) (n : nat) : rstrip c (repeated c n) = "".
Proof.
  induction n as [|n IH]; [done|]. simpl repeated.
  by rewrite rstrip_cons, IH, Ascii.eqb_refl.
Qed.

(** Trailing occurrences do not count. *)
Lemma rstrip_app_repeated (c : ascii) (s : string) (n : nat) :
  rstrip c (s +:+ repeated c n) = rstrip c s.
Proof.
  induction s as [|a s IH]; [apply rstrip_repeated_nil|].
  by rewrite append_cons, !rstrip_cons, IH.
Qed.

(** A string that does not end in the character is left alone. *)
Lemma rstrip_id (c : ascii) (s : string) :
  (∀ q, s ≠ q +:+ String c "") → rstrip c s = s.
Proof.
  induction s as [|a s IH]; intros Hend; [done|].
  rewrite rstrip_cons. destruct s as [|b s].
  - simpl. destruct (Ascii.eqb_spec a c) as [->|]; [|done].
    by destruct (Hend "").
  - rewrite IH; [done|]. intros q Hq. apply (Hend (String a q)).
    by rewrite Hq.
Qed.

(** Splitting an equation between two appends, at equal lengths. *)
Lemma append_inj_l (a b c d : string) :
  a +:+ b = c +:+ d → String.length a = String.length c → a = c ∧ b = d.
Proof.
  revert c. induction a as [|x a IH]; intros [|y c] H Hlen; try done.
  rewrite !append_cons in H. injection H as -> H.
  destruct (IH c H) as [-> ->]; [by injection Hlen|done].
Qed.

Lemma append_inj_r (a b c d : string) :
  a +:+ b = c +:+ d → String.length b = String.length d → a = c ∧ b = d.
Proof.
  intros H Hlen. apply append_inj_l; [done|].
  apply (f_equal String.length) in H. rewrite !length_append in H. lia.
Qed.

(** *** The timestamp is faithful *)

Lemma digit_inj (n m : nat) : digit n = digit m → (n mod 10 = m mod 10)%nat.
Proof.
  unfold digit. intros H. apply (f_equal Ascii.nat_of_ascii) in H.
  pose proof (Nat.mod_upper_bound n 10 ltac:(done)).
  pose proof (Nat.mod_upper_bound m 10 ltac:(done)).
  rewrite !Ascii.nat_ascii_embedding in H by lia. lia.
Qed.

Lemma zero_padded_inj (width n m : nat) :
  (n < 10 ^ width)%nat → (m < 10 ^ width)%nat →
  zero_padded width n = zero_padded width m → n = m.
Proof.
  revert n m. induction width as [|width IH]; intros n m Hn Hm H.
  - simpl in Hn, Hm. lia.
  - cbn [zero_padded] in H. apply append_inj_r in H as [H1 H2]; [|done].
    injection H2 as H2%digit_inj.
    rewrite Nat.pow_succ_r' in Hn, Hm.
    apply IH in H1; [|by apply Nat.Div0.div_lt_upper_bound..].
    rewrite (Nat.div_mod_eq n 10), (Nat.div_mod_eq m 10). lia.
Qed.

(** Two valid clocks with the same timestamp are the same clock. *)
Lemma strftime_inj (d1 d2 : datetime) :
  valid_datetime d1 → valid_datetime d2 →
  strftime d1 = strftime d2 → d1 = d2.
Proof.
  intros (Hy1 & Hm1 & Hd1 & HH1 & HM1 & HS1) (Hy2 & Hm2 & Hd2 & HH2 & HM2 & HS2).
  unfold strftime. intros H.
  apply append_inj_l in H as [Hy H]; [|by rewrite !length_zero_padded].
  apply append_inj_l in H as [Hm H]; [|by rewrite !length_zero_padded].
  apply append_inj_l in H as [Hd H]; [|by rewrite !length_zero_padded].
  apply append_inj_l in H as [_ H]; [|done].
  apply append_inj_l in H as [HH H]; [|by rewrite !length_zero_padded].
  apply append_inj_l in H as [HM H]; [|by rewrite !length_zero_padded].
  apply append_inj_l in H as [HS _]; [|by rewrite !length_zero_padded].
  apply zero_padded_inj in Hy; [|simpl; lia..].
  apply zero_padded_inj in Hm; [|simpl; lia..].
  apply zero_padded_inj in Hd; [|simpl; lia..].
  apply zero_padded_inj in HH; [|simpl; lia..].
  apply zero_padded_inj in HM; [|simpl; lia..].
  apply zero_padded_inj in HS; [|simpl; lia..].
  destruct d1, d2; simpl in *; by subst.
Qed.

(** X15. Trailing slashes of [ADLS_PATH_PREFIX] do not matter, and an
    empty prefix is not replaced by the default. If the variable is set to
    [p] followed by any number of slashes, [p] not ending in one, every
    upload of the handler goes to [{p}/{timestamp}.json]; for a prefix that
    is empty or made of slashes only this is [/{timestamp}.json]. *)
Theorem trailing_slashes_do_not_matter (req : HttpRequest) (w : World)
    (s : State) (p : string) (n : nat) (container blob data : string) :
  environ w !! "ADLS_PATH_PREFIX" = Some (p +:+ repeated "/" n) →
  (∀ q, p ≠ q +:+ "/") →
  UploadBlob container blob data ∈ (http_trigger req w s).2 →
  blob = p +:+ "/" +:+ strftime (utc_now w) +:+ ".json".
Proof.
  intros Hprefix Hend ->%http_trigger_upload_inv.
  rewrite Hprefix. unfold target_blob, blob_name_of. simpl.
  by rewrite rstrip_app_repeated, rstrip_id.
Qed.

Lemma trailing_slashes_do_not_matter_witness :
  "flights/20231110T120000Z.json"
    = "flights" +:+ "/" +:+ strftime (utc_now slash_world) +:+ ".json".
Proof.
  apply (trailing_slashes_do_not_matter request slash_world initial_state
           "flights" 1 "test-container" "flights/20231110T120000Z.json"
           payload).
  - reflexivity.
  - intros q H. apply (rstrip_no_trailing "/" "flights" q). exact H.
  - vm_compute. do 7 apply list_elem_of_further. apply list_elem_of_here.
Defined.

(** X16. Two invocations write to the same blob only within the same
    second and under the same prefix up to trailing slashes: if the target
    blobs of two worlds with valid clocks are equal, the clocks are equal
    and so are the prefixes once stripped. *)
Theorem same_blob_means_same_second (w1 w2 : World) (p1 p2 : string) :
  valid_datetime (utc_now w1) → valid_datetime (utc_now w2) →
  target_blob w1 p1 = target_blob w2 p2 →
  utc_now w1 = utc_now w2 ∧ rstrip "/" p1 = rstrip "/" p2.
Proof.
  intros Hv1 Hv2. unfold target_blob, blob_name_of. intros H.
  apply append_inj_r in H as [Hp H].
  - split; [|done]. apply strftime_inj; [done..|].
    apply append_inj_l in H as [_ H]; [|done].
    by apply append_inv_tail in H.
  - by rewrite !length_append, !length_strftime.
Qed.

Lemma same_blob_means_same_second_witness :
  utc_now success_world = utc_now slash_world ∧
  rstrip "/" "flights" = rstrip "/" "flights/".
Proof.
  apply (same_blob_means_same_second success_world slash_world
           "flights" "flights/").
  - vm_compute. repeat split; try discriminate; lia.
  - vm_compute. repeat split; try discriminate; lia.
  - reflexivity.
Defined.

(** *** One world, many invocations *)

Section maintains_in_rules.
Context (w : World) (I : State → Prop).

Lemma maintains_in_ret {A} (a : A) : maintains_in w I (ret a).
Proof. by intros s Hs. Qed.

Lemma maintains_in_raise {A} (e : exn) : maintains_in w I (raise (A:=A) e).
Proof. by intros s Hs. Qed.

Lemma maintains_in_bind {A B} (m : M A) (k : A → M B) :
  maintains_in w I m → (∀ a, maintains_in w I (k a)) →
  maintains_in w I (bind m k).
Proof.
  intros Hm Hk s Hs. unfold bind. pose proof (Hm s Hs) as Hs1.
  destruct (m w s) as [[[a|e] s1] evs1]; simpl in *; [|done].
  pose proof (Hk a s1 Hs1) as Hs2.
  by destruct (k a w s1) as [[r s2] evs2].
Qed.

Lemma maintains_in_try_except {A} (m : M A) (catches : exn → bool)
    (handler : exn → M A) :
  maintains_in w I m → (∀ e, maintains_in w I (handler e)) →
  maintains_in w I (try_except m catches handler).
Proof.
  intros Hm Hh s Hs. unfold try_except. pose proof (Hm s Hs) as Hs1.
  destruct (m w s) as [[[a|e] s1] evs1]; simpl in *; [done|].
  destruct (catches e); [|done].
  pose proof (Hh e s1 Hs1) as Hs2.
  by destruct (handler e w s1) as [[r s2] evs2].
Qed.

Lemma maintains_in_call (ev : event) (outcome : World → option exn) :
  maintains_in w I (call ev outcome).
Proof. intros s Hs. unfold_monad. simpl. by destruct (outcome w). Qed.

Lemma maintains_in_call_result {A} (ev : event) (outcome : World → result A) :
  maintains_in w I (call_result ev outcome).
Proof. intros s Hs. unfold_monad. simpl. by destruct (outcome w). Qed.

Lemma maintains_in_environ_getitem (key : string) :
  maintains_in w I (environ_getitem key).
Proof. intros s Hs. unfold_monad. simpl. by destruct (environ w !! key). Qed.

Lemma maintains_in_getenv (key fallback : string) :
  maintains_in w I (getenv key fallback).
Proof. by intros s Hs. Qed.

Lemma maintains_in_ask : maintains_in w I ask.
Proof. by intros s Hs. Qed.

Lemma maintains_in_with {A B} (resource : M A) (close : A → M unit)
    (body : A → M B) :
  maintains_in w I resource → (∀ x, maintains_in w I (close x)) →
  (∀ x, maintains_in w I (body x)) →
  maintains_in w I (with_ resource close body).
Proof.
  intros Hr Hc Hb. apply maintains_in_bind; [done|]. intros x s Hs.
  pose proof (Hb x s Hs) as Hs1.
  destruct (body x w s) as [[r s1] evs1]. simpl in *.
  pose proof (Hc x s1 Hs1) as Hs2.
  by destruct (close x w s1) as [[[u|e] s2] evs2].
Qed.

Lemma maintains_in_Client (seconds : Z) : maintains_in w I (Client seconds).
Proof.
  intros s Hs. unfold Client. unfold_monad. simpl.
  by destruct (Client_init w).
Qed.

Hypothesis get_credential_ok : maintains_in w I get_credential.
Hypothesis get_secret_client_ok : maintains_in w I get_secret_client.

Lemma maintains_in_get_secret (secret_name : string) :
  maintains_in w I (get_secret secret_name).
Proof.
  apply maintains_in_try_except; [|intros; apply maintains_in_ret].
  apply maintains_in_bind; [done|intros client].
  apply maintains_in_bind; [apply maintains_in_call_result|intros v].
  apply maintains_in_ret.
Qed.

Lemma maintains_in_get_blob_service_client :
  maintains_in w I get_blob_service_client.
Proof.
  apply maintains_in_bind; [apply maintains_in_environ_getitem|intros n].
  apply maintains_in_bind; [done|intros c].
  apply maintains_in_bind; [apply maintains_in_call|intros _].
  apply maintains_in_ret.
Qed.

Lemma maintains_in_save_or_500 (container_name path_prefix data : string) :
  maintains_in w I (save_or_500 container_name path_prefix data).
Proof.
  apply maintains_in_try_except; [|intros; apply maintains_in_ret].
  apply maintains_in_bind; [apply maintains_in_get_blob_service_client|].
  intros service. apply maintains_in_bind.
  { apply maintains_in_bind; [apply maintains_in_call|intros _].
    apply maintains_in_ret. }
  intros container. apply maintains_in_bind; [apply maintains_in_ask|intros ?].
  apply maintains_in_bind.
  { apply maintains_in_bind; [apply maintains_in_call|intros _].
    apply maintains_in_ret. }
  intros blob. apply maintains_in_bind; [apply maintains_in_call|intros _].
  apply maintains_in_ret.
Qed.

Lemma maintains_in_http_trigger (req : HttpRequest) :
  maintains_in w I (http_trigger req).
Proof.
  apply maintains_in_bind.
  { apply maintains_in_try_except; [|intros; apply maintains_in_ret].
    apply maintains_in_bind; [apply maintains_in_environ_getitem|intros api].
    apply maintains_in_bind; [apply maintains_in_environ_getitem|intros c].
    apply maintains_in_bind; [apply maintains_in_getenv|intros p].
    apply maintains_in_ret. }
  intros [[[endpoint_url container_name] path_prefix]|response];
    [|apply maintains_in_ret].
  apply maintains_in_bind; [apply maintains_in_get_secret|intros key].
  apply maintains_in_bind.
  { apply maintains_in_try_except; [|intros; apply maintains_in_ret].
    apply maintains_in_with;
      [apply maintains_in_Client|intros; apply maintains_in_ret|intros client].
    apply maintains_in_bind; [apply maintains_in_call_result|intros r].
    apply maintains_in_bind; [|intros _; apply maintains_in_ret].
    unfold raise_for_status.
    destruct (is_success r); [apply maintains_in_ret|apply maintains_in_raise]. }
  intros [data|response]; [|apply maintains_in_ret].
  apply (maintains_in_save_or_500 container_name path_prefix data).
Qed.

Lemma maintains_in_run (calls : list (World * entry_point)) (s : State) :
  Forall (λ c, c.1 = w) calls → I s → I (run calls s).1.2.
Proof.
  intros Hcalls. revert s.
  induction Hcalls as [|[w' call] calls Hw _ IH]; intros s Hs; [done|].
  simpl in Hw. subst w'. simpl.
  assert (I (run_call call w s).1.2) as Hs1.
  { destruct call as [| |secret_name| |req]; simpl.
    - pose proof (get_credential_ok s Hs).
      by destruct (get_credential w s) as [[r s'] evs].
    - pose proof (get_secret_client_ok s Hs).
      by destruct (get_secret_client w s) as [[r s'] evs].
    - pose proof (maintains_in_get_secret secret_name s Hs).
      by destruct (get_secret secret_name w s) as [[r s'] evs].
    - pose proof (maintains_in_get_blob_service_client s Hs).
      by destruct (get_blob_service_client w s) as [[r s'] evs].
    - pose proof (maintains_in_http_trigger req s Hs).
      by destruct (http_trigger req w s) as [[r s'] evs]. }
  destruct (run_call call w s) as [[rs1 s1] evs1]. simpl in Hs1.
  pose proof (IH s1 Hs1). by destruct (run calls s1) as [[rs2 s2] evs2].
Qed.

End maintains_in_rules.

(** What the two cached functions would hand out, read off the state. *)
Lemma effective_credential_eq (w : World) (s : State) :
  effective_credential w s =
    match credential_cache s with
    | Some c => Ok c
    | None =>
        match DefaultAzureCredential_init w with
        | Some e => Raise e
        | None => Ok {| cred_id := next_id s |}
        end
    end.
Proof.
  unfold effective_credential. rewrite get_credential_eq.
  by destruct (credential_cache s), (DefaultAzureCredential_init w).
Qed.

Lemma effective_secret_client_eq (w : World) (s : State) :
  effective_secret_client w s =
    match secret_client_cache s with
    | Some client => Ok client
    | None =>
        match environ w !! "KEY_VAULT_URL" with
        | None => Raise (KeyError "KEY_VAULT_URL")
        | Some key_vault_url =>
            match effective_credential w s with
            | Ok credential =>
                match SecretClient_init w key_vault_url credential with
                | Some e => Raise e
                | None => Ok {| vault_url := key_vault_url;
                                sc_credential := credential |}
                end
            | Raise e => Raise e
            end
        end
    end.
Proof.
  unfold effective_secret_client, effective_credential.
  rewrite get_secret_client_eq.
  destruct (secret_client_cache s); [done|].
  destruct (environ w !! "KEY_VAULT_URL") as [key_vault_url|]; [|done].
  destruct (get_credential w s) as [[[c|e] s1] evs1]; [|done].
  simpl. by destruct (SecretClient_init w key_vault_url c).
Qed.

(** In one world the two answers never change: a call may fill a cache,
    but only with what the cached function would have handed out. *)
Lemma get_credential_gives (w : World) (c : result Credential)
    (client : result SecretClient) :
  maintains_in w (gives w c client) get_credential.
Proof.
  intros s [Hc Hclient]. unfold gives in *.
  rewrite effective_secret_client_eq in *. rewrite effective_credential_eq in *.
  rewrite get_credential_eq.
  destruct (credential_cache s) as [c0|] eqn:Hcache;
    [simpl; by rewrite Hcache|].
  destruct (DefaultAzureCredential_init w) as [e|] eqn:Hinit; simpl;
    by rewrite ?Hcache, ?Hinit.
Qed.

Lemma get_secret_client_gives (w : World) (c : result Credential)
    (client : result SecretClient) :
  maintains_in w (gives w c client) get_secret_client.
Proof.
  intros s Hs. rewrite get_secret_client_eq.
  destruct (secret_client_cache s) as [client0|] eqn:Hcache; [done|].
  destruct (environ w !! "KEY_VAULT_URL") as [key_vault_url|] eqn:Hurl;
    [|done].
  pose proof (get_credential_gives w c client s Hs) as Hs1.
  destruct (get_credential w s) as [[[credential|e] s1] evs1] eqn:Hget;
    simpl in *; [|done].
  destruct (SecretClient_init w key_vault_url credential) eqn:Hinit;
    simpl; [done|].
  apply get_credential_Ok in Hget as (Hcred & Hsc & _).
  destruct Hs1 as [Hc Hclient]. unfold gives in *.
  rewrite effective_secret_client_eq in *. rewrite effective_credential_eq in *.
  simpl. rewrite Hsc, Hcache, Hurl, Hcred, Hinit in Hclient.
  rewrite Hcred in Hc. by rewrite Hcred.
Qed.

(** The value [get_secret] returns is decided by the effective client. *)
Lemma get_secret_value (secret_name : string) (w : World) (s : State) :
  (get_secret secret_name w s).1.1 =
    Ok match effective_secret_client w s with
       | Ok client =>
           match SecretClient_get_secret w client secret_name with
           | Ok value => value
           | Raise _ => None
           end
       | Raise _ => None
       end.
Proof.
  unfold effective_secret_client. rewrite get_secret_eq.
  by destruct (get_secret_client w s) as [[[client|e] s1] evs1].
Qed.

(** The answer of the last [try] is decided by the effective credential. *)
Lemma save_or_500_value (container_name path_prefix data : string)
    (w : World) (s s' : State) :
  effective_credential w s = effective_credential w s' →
  (save_or_500 container_name path_prefix data w s).1.1
    = (save_or_500 container_name path_prefix data w s').1.1.
Proof.
  unfold effective_credential. intros Heq.
  rewrite !save_or_500_eq, !save_eq, !get_blob_service_client_eq.
  destruct (environ w !! "STORAGE_ACCOUNT_NAME") as [name|]; [|done].
  destruct (get_credential w s) as [[[c|e] s1] evs1],
           (get_credential w s') as [[[c'|e'] s1'] evs1'];
    simpl in Heq; try done; injection Heq as <-; [|done].
  simpl. destruct (BlobServiceClient_init w _ c); [done|].
  simpl. destruct (get_container_client_outcome w _ container_name); [done|].
  destruct (get_blob_client_outcome w _ _); [done|].
  by destruct (upload_blob_outcome w _ data).
Qed.

(** The answer of the handler is decided by the world and the two
    effective objects. *)
Lemma http_trigger_value (req : HttpRequest) (w : World) (s s' : State) :
  effective_credential w s = effective_credential w s' →
  effective_secret_client w s = effective_secret_client w s' →
  (http_trigger req w s).1.1 = (http_trigger req w s').1.1.
Proof.
  intros Hc Hclient.
  destruct (environ w !! "API_URL") as [api|] eqn:Hapi;
    [destruct (environ w !! "ADLS_FILE_SYSTEM") as [container|] eqn:Hcont|];
    [|by rewrite !http_trigger_missing by auto..].
  pose proof (get_secret_value "api-key" w s) as Hv.
  pose proof (get_secret_value "api-key" w s') as Hv'.
  rewrite <- Hclient in Hv'.
  pose proof (maintains_in_get_secret w (gives w _ _)
                (get_secret_client_gives w _ _)
                "api-key" s (conj eq_refl eq_refl)) as [Hs1 _].
  pose proof (maintains_in_get_secret w (gives w _ _)
                (get_secret_client_gives w _ _)
                "api-key" s' (conj eq_refl eq_refl)) as [Hs1' _].
  destruct (get_secret "api-key" w s) as [[[key|e] s1] evs1] eqn:Hkey;
    simpl in Hv; [|done].
  destruct (get_secret "api-key" w s') as [[[key'|e'] s1'] evs1'] eqn:Hkey';
    simpl in Hv'; [|done].
  injection Hv as Hv. injection Hv' as Hv'. rewrite <- Hv in Hv'. subst key'.
  simpl in Hs1, Hs1'.
  rewrite (http_trigger_eq _ _ _ _ _ _ _ _ Hapi Hcont Hkey).
  rewrite (http_trigger_eq _ _ _ _ _ _ _ _ Hapi Hcont Hkey'), !fetch_eq.
  destruct (Client_get w _) as [r|e].
  - destruct (is_success r); [|done].
    pose proof (save_or_500_value container
                  (default "flights" (environ w !! "ADLS_PATH_PREFIX"))
                  (text r) w s1 s1' ltac:(congruence)) as Hsave.
    destruct (save_or_500 _ _ _ w s1) as [[r3 s3] evs3].
    by destruct (save_or_500 _ _ _ w s1') as [[r3' s3'] evs3'].
  - by destruct (is_HTTPError e).
Qed.

(** X17. The caches never change an answer. After any calls made in one
    world, the handler invoked in that world answers, or raises, exactly as
    it would have before them; in particular a second invocation in an
    unchanged world repeats the answer of the first. *)
Theorem answer_does_not_depend_on_history (req : HttpRequest) (w : World)
    (calls : list (World * entry_point)) (s : State) :
  Forall (λ c, c.1 = w) calls →
  (http_trigger req w (run calls s).1.2).1.1 = (http_trigger req w s).1.1.
Proof.
  intros Hcalls.
  destruct (maintains_in_run w (gives w _ _) (get_credential_gives w _ _)
              (get_secret_client_gives w _ _) calls s Hcalls
              (conj eq_refl eq_refl)) as [Hc Hclient].
  by apply http_trigger_value.
Qed.

Lemma answer_does_not_depend_on_history_witness :
  (http_trigger request upload_fails_world
     (run [(upload_fails_world, call_http_trigger request);
           (upload_fails_world, call_get_secret "api-key")]
        initial_state).1.2).1.1
    = (http_trigger request upload_fails_world initial_state).1.1.
Proof.
  apply (answer_does_not_depend_on_history request upload_fails_world
           [(upload_fails_world, call_http_trigger request);
            (upload_fails_world, call_get_secret "api-key")] initial_state).
  repeat constructor.
Defined.

(** X18. The keys of the first stage are read in order: whenever [API_URL]
    is missing the body names [API_URL], whether or not [ADLS_FILE_SYSTEM]
    is set, and [ADLS_FILE_SYSTEM] is named only when [API_URL] is there. *)
Theorem first_missing_key_is_named (req : HttpRequest) (w : World) (s : State) :
  (environ w !! "API_URL" = None →
   (http_trigger req w s).1.1
     = Ok {| body := "Configuration error: Missing 'API_URL'";
             status_code := 500 |}) ∧
  (∀ response,
     (http_trigger req w s).1.1 = Ok response →
     body response = "Configuration error: Missing 'ADLS_FILE_SYSTEM'" →
     is_Some (environ w !! "API_URL")
     ∧ environ w !! "ADLS_FILE_SYSTEM" = None).
Proof.
  split.
  - intros Hapi. rewrite http_trigger_missing by auto.
    unfold first_missing. by rewrite Hapi.
  - intros response.
    destruct (environ w !! "API_URL") as [api|] eqn:Hapi;
      [destruct (environ w !! "ADLS_FILE_SYSTEM") as [container|] eqn:Hc|].
    + destruct (get_secret_Ok "api-key" w s) as (key & s1 & evs1 & Hkey).
      rewrite (http_trigger_eq _ _ _ _ _ _ _ _ Hapi Hc Hkey), fetch_eq.
      destruct (Client_get w _) as [r|e].
      * destruct (is_success r); [|by intros [= <-]].
        rewrite save_or_500_eq.
        destruct (save _ _ _ w s1) as [[[r3|e] s3] evs3] eqn:Hsave.
        -- pose proof (save_eq container
                         (default "flights" (environ w !! "ADLS_PATH_PREFIX"))
                         (text r) w s1) as Heq.
           rewrite Hsave in Heq.
           destruct (get_blob_service_client w s1)
             as [[[service|e] s2] evs2]; [|done].
           simpl in Heq.
           destruct (get_container_client_outcome w service container);
             [done|].
           destruct (get_blob_client_outcome w _ _); [done|].
           destruct (upload_blob_outcome w _ (text r)); [done|].
           injection Heq as -> _ _. by intros [= <-].
        -- by intros [= <-].
      * destruct (is_HTTPError e); [by intros [= <-]|done].
    + intros _ _. by eauto.
    + rewrite http_trigger_missing by auto. unfold first_missing.
      rewrite Hapi. by intros [= <-].
Qed.

End properties.
